(** * Walk/fly navigation controls of the 3D sandbox

    A shallow embedding of [createWalkFlyControls] (src/src/models.ts, the
    part that begins with the import of Euler, Object3D, PerspectiveCamera,
    Quaternion, Raycaster and Vector3) together with the fragment of three.js
    and of the DOM that the controller drives.

    Numbers.  A JavaScript number is modelled by a real number: [+], [-],
    [*], [/], [Math.sqrt], [Math.sin], [Math.cos], [Math.asin] are the
    functions of the same name on [R].  Rounding and NaN are outside the
    model.  The code divides by a number that can be zero in one place,
    [updateMove]; [clampedRatio] gives the value the clamp makes of the
    infinite quotient there. *)

From Stdlib Require Import Reals Lra Psatz List Bool String Sorted.
Import ListNotations.

Open Scope R_scope.

(** ** Math helpers *)

(** [const clamp = (value, min, max) => Math.max(min, Math.min(max, value))] *)
Definition clamp (value min max : R) : R := Rmax min (Rmin max value).

(** [a || b] on numbers: [a] unless it is falsy (zero). *)
Definition or_else (a b : R) : R := if Req_dec_T a 0 then b else a.

(** [a ?? b] on a nullable number. *)
Definition nullish (a : option R) (b : R) : R :=
  match a with Some v => v | None => b end.

(** [Math.atan2(y, x)]. *)
Definition atan2 (y x : R) : R :=
  if Rlt_dec 0 x then atan (y / x)
  else if Rlt_dec x 0 then
         (if Rle_dec 0 y then atan (y / x) + PI else atan (y / x) - PI)
  else if Rlt_dec 0 y then PI / 2
  else if Rlt_dec y 0 then - (PI / 2)
  else 0.

(** ** three.js: Vector3 *)

Record Vector3 : Type := vec3 { vx : R; vy : R; vz : R }.

Module Vec.

Definition zero : Vector3 := vec3 0 0 0.

Definition sub (a b : Vector3) : Vector3 :=
  vec3 (vx a - vx b) (vy a - vy b) (vz a - vz b).

Definition multiplyScalar (a : Vector3) (s : R) : Vector3 :=
  vec3 (vx a * s) (vy a * s) (vz a * s).

Definition divideScalar (a : Vector3) (s : R) : Vector3 :=
  multiplyScalar a (1 / s).

Definition addScaledVector (a v : Vector3) (s : R) : Vector3 :=
  vec3 (vx a + vx v * s) (vy a + vy v * s) (vz a + vz v * s).

Definition crossVectors (a b : Vector3) : Vector3 :=
  vec3 (vy a * vz b - vz a * vy b)
       (vz a * vx b - vx a * vz b)
       (vx a * vy b - vy a * vx b).

Definition lengthSq (a : Vector3) : R :=
  vx a * vx a + vy a * vy a + vz a * vz a.

Definition length (a : Vector3) : R := sqrt (lengthSq a).

(** [normalize() { return this.divideScalar(this.length() || 1) }] *)
Definition normalize (a : Vector3) : Vector3 :=
  divideScalar a (or_else (length a) 1).

Definition setY (a : Vector3) (y : R) : Vector3 := vec3 (vx a) y (vz a).

End Vec.

(** ** three.js: Quaternion and Euler (order 'YXZ') *)

Record Quaternion : Type := quat { qx : R; qy : R; qz : R; qw : R }.

(** Every Euler the controller touches has order 'YXZ': the camera's after
    [camera.rotation.order = 'YXZ'], the scratch [euler] and the look-offset
    Euler by construction.  The record keeps the three angles. *)
Record Euler : Type := mkEuler { ex : R; ey : R; ez : R }.

Module Quat.

Definition identity : Quaternion := quat 0 0 0 1.

(** [setFromEuler], case 'YXZ'. *)
Definition setFromEuler (e : Euler) : Quaternion :=
  let c1 := cos (ex e / 2) in
  let c2 := cos (ey e / 2) in
  let c3 := cos (ez e / 2) in
  let s1 := sin (ex e / 2) in
  let s2 := sin (ey e / 2) in
  let s3 := sin (ez e / 2) in
  quat (s1 * c2 * c3 + c1 * s2 * s3)
       (c1 * s2 * c3 - s1 * c2 * s3)
       (c1 * c2 * s3 - s1 * s2 * c3)
       (c1 * c2 * c3 + s1 * s2 * s3).

(** [setFromAxisAngle(axis, angle)]; the axis is assumed normalized. *)
Definition setFromAxisAngle (axis : Vector3) (angle : R) : Quaternion :=
  let halfAngle := angle / 2 in
  let s := sin halfAngle in
  quat (vx axis * s) (vy axis * s) (vz axis * s) (cos halfAngle).

(** [multiply(q)]: this := this * q. *)
Definition multiply (a b : Quaternion) : Quaternion :=
  quat (qx a * qw b + qw a * qx b + qy a * qz b - qz a * qy b)
       (qy a * qw b + qw a * qy b + qz a * qx b - qx a * qz b)
       (qz a * qw b + qw a * qz b + qx a * qy b - qy a * qx b)
       (qw a * qw b - qx a * qx b - qy a * qy b - qz a * qz b).

Definition normSq (q : Quaternion) : R :=
  qx q * qx q + qy q * qy q + qz q * qz q + qw q * qw q.

End Quat.

(** The rotation part of [Matrix4.compose(position, quaternion, scale)] with
    unit scale, as used by [makeRotationFromQuaternion] and by the camera's
    world matrix.  [m_rc] is row r, column c. *)
Record Matrix3 : Type := mkMatrix3 {
  m11 : R; m12 : R; m13 : R;
  m21 : R; m22 : R; m23 : R;
  m31 : R; m32 : R; m33 : R
}.

Definition makeRotationFromQuaternion (q : Quaternion) : Matrix3 :=
  let x := qx q in let y := qy q in let z := qz q in let w := qw q in
  let x2 := x + x in let y2 := y + y in let z2 := z + z in
  let xx := x * x2 in let xy := x * y2 in let xz := x * z2 in
  let yy := y * y2 in let yz := y * z2 in let zz := z * z2 in
  let wx := w * x2 in let wy := w * y2 in let wz := w * z2 in
  mkMatrix3 (1 - (yy + zz)) (xy - wz) (xz + wy)
            (xy + wz) (1 - (xx + zz)) (yz - wx)
            (xz - wy) (yz + wx) (1 - (xx + yy)).

Module Eul.

(** [setFromRotationMatrix(m, 'YXZ')]. *)
Definition setFromRotationMatrix (m : Matrix3) : Euler :=
  let x := asin (- clamp (m23 m) (-1) 1) in
  if Rlt_dec (Rabs (m23 m)) 0.9999999
  then mkEuler x (atan2 (m13 m) (m33 m)) (atan2 (m21 m) (m22 m))
  else mkEuler x (atan2 (- m31 m) (m11 m)) 0.

(** [setFromQuaternion(q, order)]. *)
Definition setFromQuaternion (q : Quaternion) : Euler :=
  setFromRotationMatrix (makeRotationFromQuaternion q).

End Eul.

Module Vec3Rot.

(** [Vector3.applyQuaternion(q)]; [q] is assumed to have unit length. *)
Definition applyQuaternion (v : Vector3) (q : Quaternion) : Vector3 :=
  let tx := 2 * (qy q * vz v - qz q * vy v) in
  let ty := 2 * (qz q * vx v - qx q * vz v) in
  let tz := 2 * (qx q * vy v - qy q * vx v) in
  vec3 (vx v + qw q * tx + qy q * tz - qz q * ty)
       (vy v + qw q * ty + qz q * tx - qx q * tz)
       (vz v + qw q * tz + qx q * ty - qy q * tx).

(** [Vector3.applyEuler(euler)]. *)
Definition applyEuler (v : Vector3) (e : Euler) : Vector3 :=
  applyQuaternion v (Quat.setFromEuler e).

End Vec3Rot.

(** ** three.js: the camera as an Object3D

    The camera is the one [createCamera] builds: no parent and unit scale, so
    its world matrix is composed from its own position and quaternion.
    [rotation] and [quaternion] are kept in step by three.js's change
    callbacks: writing one recomputes the other. *)

Record Camera : Type := mkCamera {
  position : Vector3;
  rotation : Euler;
  quaternion : Quaternion
}.

Module Cam.

(** A write to [camera.position]. *)
Definition setPosition (c : Camera) (p : Vector3) : Camera :=
  mkCamera p (rotation c) (quaternion c).

(** [camera.rotation.set(x, y, z)]: the Euler's change callback recomputes
    the quaternion. *)
Definition setRotation (c : Camera) (x y z : R) : Camera :=
  mkCamera (position c) (mkEuler x y z) (Quat.setFromEuler (mkEuler x y z)).

(** A write to [camera.quaternion]: the quaternion's change callback
    recomputes the Euler angles. *)
Definition setQuaternion (c : Camera) (q : Quaternion) : Camera :=
  mkCamera (position c) (Eul.setFromQuaternion q) q.

(** [Camera.getWorldDirection(target)]: the negated third column of the
    world matrix, normalized. *)
Definition getWorldDirection (c : Camera) : Vector3 :=
  let m := makeRotationFromQuaternion (quaternion c) in
  Vec.normalize (vec3 (- m13 m) (- m23 m) (- m33 m)).

End Cam.

(** ** three.js: Raycaster over the collider set

    The controller observes a collider only through
    [raycaster.intersectObjects(colliderTargets, true)] and reads nothing but
    the [distance] of a hit.  An [Object3D] is therefore modelled by what its
    [raycast] method (and, recursively, its descendants') finds on a ray:
    the distances from the ray's origin, before the near/far test. *)

Record Object3D : Type := mkObject3D {
  raycast : Vector3 -> Vector3 -> list R
}.

Module Ray.

Fixpoint insert (d : R) (l : list R) : list R :=
  match l with
  | [] => [d]
  | h :: t => if Rle_dec d h then d :: l else h :: insert d t
  end.

(** [intersects.sort(ascSort)]: ascending by distance. *)
Fixpoint sort (l : list R) : list R :=
  match l with
  | [] => []
  | h :: t => insert h (sort t)
  end.

(** The test each [raycast] method applies:
    [if (distance < raycaster.near || distance > raycaster.far) return null]. *)
Definition inRange (near far d : R) : bool :=
  if Rlt_dec d near then false
  else if Rlt_dec far d then false
  else true.

(** [raycaster.intersectObjects(objects, true)] with ray (origin,
    direction), [near] and [far]: the distances of the reported hits. *)
Definition intersectObjects (origin direction : Vector3) (near far : R)
    (objects : list Object3D) : list R :=
  sort (flat_map (fun o => filter (inRange near far)
                                  (raycast o origin direction)) objects).

End Ray.

(** ** The DOM the controller touches *)

Inductive Target : Type := Document | DomElement | Window.

(** The named callbacks the controller registers. *)
Inductive Handler : Type :=
| onPointerLockChangeH
| onMouseMoveH
| onKeyDownH
| onKeyUpH
| requestPointerLockH
| handleDeviceOrientationH
| handleOrientationChangeH.

(** A registered listener: target, event type, callback and capture flag.
    The DOM identifies a listener by type, callback and capture flag. *)
Record Listener : Type := mkListener {
  ltarget : Target;
  ltype : string;
  lhandler : Handler;
  lcapture : bool
}.

Definition target_eqb (a b : Target) : bool :=
  match a, b with
  | Document, Document | DomElement, DomElement | Window, Window => true
  | _, _ => false
  end.

Definition handler_eqb (a b : Handler) : bool :=
  match a, b with
  | onPointerLockChangeH, onPointerLockChangeH
  | onMouseMoveH, onMouseMoveH
  | onKeyDownH, onKeyDownH
  | onKeyUpH, onKeyUpH
  | requestPointerLockH, requestPointerLockH
  | handleDeviceOrientationH, handleDeviceOrientationH
  | handleOrientationChangeH, handleOrientationChangeH => true
  | _, _ => false
  end.

Definition listener_eqb (a b : Listener) : bool :=
  target_eqb (ltarget a) (ltarget b)
  && String.eqb (ltype a) (ltype b)
  && handler_eqb (lhandler a) (lhandler b)
  && Bool.eqb (lcapture a) (lcapture b).

Module Dom.

Definition registered (l : Listener) (ls : list Listener) : bool :=
  existsb (listener_eqb l) ls.

(** [target.addEventListener(type, callback, capture = false)]: a listener
    already registered with the same type, callback and capture flag is
    not added again. *)
Definition addEventListener (t : Target) (type : string) (h : Handler)
    (capture : bool) (ls : list Listener) : list Listener :=
  let l := mkListener t type h capture in
  if registered l ls then ls else ls ++ [l].

(** [target.removeEventListener(type, callback, capture = false)]: removes
    the listener with the same type, callback and capture flag, if any. *)
Definition removeEventListener (t : Target) (type : string) (h : Handler)
    (capture : bool) (ls : list Listener) : list Listener :=
  filter (fun l => negb (listener_eqb (mkListener t type h capture) l)) ls.

(** Whether an event of [type] dispatched on [t] reaches callback [h]. *)
Definition fires (t : Target) (type : string) (h : Handler)
    (ls : list Listener) : bool :=
  registered (mkListener t type h false) ls
  || registered (mkListener t type h true) ls.

End Dom.

(** ** Controller state *)

Record ControlState : Type := mkControlState {
  flyMode : bool;
  speed : R;
  lookSpeed : R;
  walkHeight : R;
  gyroEnabled : bool;
  gyroAvailable : bool
}.

(** [const movement = { forward, backward, left, right, up, down }] *)
Record Movement : Type := mkMovement {
  forward : R;
  backward : R;
  left : R;
  right : R;
  up : R;
  down : R
}.

(** [const touchMovement = { x, z }] *)
Record TouchMovement : Type := mkTouchMovement { tmx : R; tmz : R }.

(** The fields of a [DeviceOrientationEvent] the controller reads; each may
    be null. *)
Record DeviceOrientationEvent : Type := mkDeviceOrientationEvent {
  alpha : option R;
  beta : option R;
  gamma : option R
}.

Record PointerEvent : Type := mkPointerEvent {
  pointerId : Z;
  clientX : R;
  clientY : R
}.

Record DOMRect : Type := mkDOMRect {
  rleft : R;
  rtop : R;
  rwidth : R;
  rheight : R
}.

(** The closure state of the on-screen joysticks, which exist only when the
    device reports a coarse pointer.  [attached] records whether the
    container element is in the document. *)
Record TouchControls : Type := mkTouchControls {
  attached : bool;
  movePointerId : option Z;
  moveCenterX : R;
  moveCenterY : R;
  moveRadius : R;
  lookPointerId : option Z;
  lastLookX : R;
  lastLookY : R
}.

Record Controls : Type := mkControls {
  state : ControlState;
  movement : Movement;
  touchMovement : TouchMovement;
  isTouch : bool;
  colliderTargets : list Object3D;
  colliderRadius : R;
  yaw : R;
  pitch : R;
  isPointerLocked : bool;
  deviceOrientation : option DeviceOrientationEvent;
  screenOrientation : R;
  lookOffsetYaw : R;
  lookOffsetPitch : R;
  camera : Camera;
  listeners : list Listener;
  touchControls : option TouchControls
}.

(** Field updates ([s.field = v] in the source). *)

Definition set_state (st : ControlState) (s : Controls) : Controls :=
  mkControls st (movement s) (touchMovement s) (isTouch s) (colliderTargets s)
    (colliderRadius s) (yaw s) (pitch s) (isPointerLocked s)
    (deviceOrientation s) (screenOrientation s) (lookOffsetYaw s)
    (lookOffsetPitch s) (camera s) (listeners s) (touchControls s).

Definition set_movement (m : Movement) (s : Controls) : Controls :=
  mkControls (state s) m (touchMovement s) (isTouch s) (colliderTargets s)
    (colliderRadius s) (yaw s) (pitch s) (isPointerLocked s)
    (deviceOrientation s) (screenOrientation s) (lookOffsetYaw s)
    (lookOffsetPitch s) (camera s) (listeners s) (touchControls s).

Definition set_touchMovement (t : TouchMovement) (s : Controls) : Controls :=
  mkControls (state s) (movement s) t (isTouch s) (colliderTargets s)
    (colliderRadius s) (yaw s) (pitch s) (isPointerLocked s)
    (deviceOrientation s) (screenOrientation s) (lookOffsetYaw s)
    (lookOffsetPitch s) (camera s) (listeners s) (touchControls s).

Definition set_colliderTargets (l : list Object3D) (s : Controls) : Controls :=
  mkControls (state s) (movement s) (touchMovement s) (isTouch s) l
    (colliderRadius s) (yaw s) (pitch s) (isPointerLocked s)
    (deviceOrientation s) (screenOrientation s) (lookOffsetYaw s)
    (lookOffsetPitch s) (camera s) (listeners s) (touchControls s).

Definition set_colliderRadius (r : R) (s : Controls) : Controls :=
  mkControls (state s) (movement s) (touchMovement s) (isTouch s)
    (colliderTargets s) r (yaw s) (pitch s) (isPointerLocked s)
    (deviceOrientation s) (screenOrientation s) (lookOffsetYaw s)
    (lookOffsetPitch s) (camera s) (listeners s) (touchControls s).

Definition set_yaw_pitch (y p : R) (s : Controls) : Controls :=
  mkControls (state s) (movement s) (touchMovement s) (isTouch s)
    (colliderTargets s) (colliderRadius s) y p (isPointerLocked s)
    (deviceOrientation s) (screenOrientation s) (lookOffsetYaw s)
    (lookOffsetPitch s) (camera s) (listeners s) (touchControls s).

Definition set_isPointerLocked (b : bool) (s : Controls) : Controls :=
  mkControls (state s) (movement s) (touchMovement s) (isTouch s)
    (colliderTargets s) (colliderRadius s) (yaw s) (pitch s) b
    (deviceOrientation s) (screenOrientation s) (lookOffsetYaw s)
    (lookOffsetPitch s) (camera s) (listeners s) (touchControls s).

Definition set_deviceOrientation (e : option DeviceOrientationEvent)
    (s : Controls) : Controls :=
  mkControls (state s) (movement s) (touchMovement s) (isTouch s)
    (colliderTargets s) (colliderRadius s) (yaw s) (pitch s)
    (isPointerLocked s) e (screenOrientation s) (lookOffsetYaw s)
    (lookOffsetPitch s) (camera s) (listeners s) (touchControls s).

Definition set_screenOrientation (a : R) (s : Controls) : Controls :=
  mkControls (state s) (movement s) (touchMovement s) (isTouch s)
    (colliderTargets s) (colliderRadius s) (yaw s) (pitch s)
    (isPointerLocked s) (deviceOrientation s) a (lookOffsetYaw s)
    (lookOffsetPitch s) (camera s) (listeners s) (touchControls s).

Definition set_lookOffset (y p : R) (s : Controls) : Controls :=
  mkControls (state s) (movement s) (touchMovement s) (isTouch s)
    (colliderTargets s) (colliderRadius s) (yaw s) (pitch s)
    (isPointerLocked s) (deviceOrientation s) (screenOrientation s) y p
    (camera s) (listeners s) (touchControls s).

Definition set_camera (c : Camera) (s : Controls) : Controls :=
  mkControls (state s) (movement s) (touchMovement s) (isTouch s)
    (colliderTargets s) (colliderRadius s) (yaw s) (pitch s)
    (isPointerLocked s) (deviceOrientation s) (screenOrientation s)
    (lookOffsetYaw s) (lookOffsetPitch s) c (listeners s) (touchControls s).

Definition set_listeners (ls : list Listener) (s : Controls) : Controls :=
  mkControls (state s) (movement s) (touchMovement s) (isTouch s)
    (colliderTargets s) (colliderRadius s) (yaw s) (pitch s)
    (isPointerLocked s) (deviceOrientation s) (screenOrientation s)
    (lookOffsetYaw s) (lookOffsetPitch s) (camera s) ls (touchControls s).

Definition set_touchControls (t : option TouchControls) (s : Controls)
    : Controls :=
  mkControls (state s) (movement s) (touchMovement s) (isTouch s)
    (colliderTargets s) (colliderRadius s) (yaw s) (pitch s)
    (isPointerLocked s) (deviceOrientation s) (screenOrientation s)
    (lookOffsetYaw s) (lookOffsetPitch s) (camera s) (listeners s) t.

Definition set_flyMode (b : bool) (st : ControlState) : ControlState :=
  mkControlState b (speed st) (lookSpeed st) (walkHeight st) (gyroEnabled st)
    (gyroAvailable st).

Definition set_speed (v : R) (st : ControlState) : ControlState :=
  mkControlState (flyMode st) v (lookSpeed st) (walkHeight st)
    (gyroEnabled st) (gyroAvailable st).

Definition set_lookSpeed (v : R) (st : ControlState) : ControlState :=
  mkControlState (flyMode st) (speed st) v (walkHeight st) (gyroEnabled st)
    (gyroAvailable st).

Definition set_gyroEnabled (b : bool) (st : ControlState) : ControlState :=
  mkControlState (flyMode st) (speed st) (lookSpeed st) (walkHeight st) b
    (gyroAvailable st).

(** ** Construction *)

(** What the constructor reads from the browser:
    ['DeviceOrientationEvent' in window] and
    [window.matchMedia('(pointer: coarse)').matches]. *)
Record Browser : Type := mkBrowser {
  hasDeviceOrientationEvent : bool;
  coarsePointer : bool
}.

Definition initialTouchControls : TouchControls :=
  mkTouchControls true None 0 0 0 None 0 0.

Definition initialListeners : list Listener :=
  Dom.addEventListener DomElement "click" requestPointerLockH false
    (Dom.addEventListener Document "keyup" onKeyUpH false
      (Dom.addEventListener Document "keydown" onKeyDownH false
        (Dom.addEventListener Document "mousemove" onMouseMoveH false
          (Dom.addEventListener Document "pointerlockchange"
             onPointerLockChangeH false [])))).

(** [createWalkFlyControls(camera, domElement)].  [position0] and [rotation0]
    are the position and the Euler angles of the camera handed in;
    [camera.rotation.order = 'YXZ'] makes three.js recompute the quaternion
    from those angles in the new order. *)
Definition createWalkFlyControls (position0 : Vector3) (rotation0 : Euler)
    (browser : Browser) : Controls :=
  mkControls
    (mkControlState true 3 0.002 1.6 false (hasDeviceOrientationEvent browser))
    (mkMovement 0 0 0 0 0 0)
    (mkTouchMovement 0 0)
    (coarsePointer browser)
    []
    0.35
    (ey rotation0)
    (ex rotation0)
    false
    None
    0
    0
    0
    (mkCamera position0 rotation0 (Quat.setFromEuler rotation0))
    initialListeners
    (if coarsePointer browser then Some initialTouchControls else None).

(** ** Orientation *)

Definition zee : Vector3 := vec3 0 0 1.

(** [const q1 = new Quaternion(-Math.sqrt(0.5), 0, 0, Math.sqrt(0.5))] *)
Definition q1 : Quaternion := quat (- sqrt 0.5) 0 0 (sqrt 0.5).

(** [setObjectQuaternion(quaternion, alpha, beta, gamma, orient)]: the value
    left in [quaternion]. *)
Definition setObjectQuaternion (alpha beta gamma orient : R) : Quaternion :=
  Quat.multiply
    (Quat.multiply (Quat.setFromEuler (mkEuler beta alpha (- gamma))) q1)
    (Quat.setFromAxisAngle zee (- orient)).

Definition pitchMin : R := - PI / 2 + 0.05.
Definition pitchMax : R := PI / 2 - 0.05.

Definition updateRotation (s : Controls) : Controls :=
  let p := clamp (pitch s) pitchMin pitchMax in
  set_camera (Cam.setRotation (camera s) p (yaw s) 0)
    (set_yaw_pitch (yaw s) p s).

Definition onMouseMove (movementX movementY : R) (s : Controls) : Controls :=
  if negb (isPointerLocked s) then s
  else if gyroEnabled (state s) then s
  else updateRotation
         (set_yaw_pitch (yaw s - movementX * lookSpeed (state s))
                        (pitch s - movementY * lookSpeed (state s)) s).

(** [locked] is [document.pointerLockElement === domElement]. *)
Definition onPointerLockChange (locked : bool) (s : Controls) : Controls :=
  set_isPointerLocked locked s.

(** ** Keyboard *)

Open Scope string_scope.

Definition setKey (code : string) (v : R) (m : Movement) : Movement :=
  if (code =? "KeyW") || (code =? "ArrowUp") then
    mkMovement v (backward m) (left m) (right m) (up m) (down m)
  else if (code =? "KeyS") || (code =? "ArrowDown") then
    mkMovement (forward m) v (left m) (right m) (up m) (down m)
  else if (code =? "KeyA") || (code =? "ArrowLeft") then
    mkMovement (forward m) (backward m) v (right m) (up m) (down m)
  else if (code =? "KeyD") || (code =? "ArrowRight") then
    mkMovement (forward m) (backward m) (left m) v (up m) (down m)
  else if code =? "Space" then
    mkMovement (forward m) (backward m) (left m) (right m) v (down m)
  else if (code =? "ShiftLeft") || (code =? "ShiftRight") then
    mkMovement (forward m) (backward m) (left m) (right m) (up m) v
  else m.

Definition onKeyDown (code : string) (s : Controls) : Controls :=
  set_movement (setKey code 1 (movement s)) s.

Definition onKeyUp (code : string) (s : Controls) : Controls :=
  set_movement (setKey code 0 (movement s)) s.

Close Scope string_scope.

(** ** Touch joysticks *)

Definition sameId (a : Z) (b : option Z) : bool :=
  match b with Some i => Z.eqb a i | None => false end.

(** [clamp(d / r, -1, 1)] as JavaScript evaluates it, [r] being half the
    width of the pad and so never negative.  For [r = 0] the quotient is
    an infinity, which the clamp brings to 1 or to -1 by the sign of [d];
    at [d = 0] it is [0 / 0], NaN in the code, which no real number
    models: the value 0 stands in for it here, and the properties that
    speak of the joystick axes exclude that input. *)
Definition clampedRatio (d r : R) : R :=
  if Req_dec_T r 0 then
    if Rlt_dec 0 d then 1
    else if Rlt_dec d 0 then -1
    else 0
  else clamp (d / r) (-1) 1.

(** [updateMove(event)]; the move stick's CSS transform is not modelled. *)
Definition updateMove (event : PointerEvent) (tc : TouchControls)
    (s : Controls) : Controls :=
  let dx := clientX event - moveCenterX tc in
  let dy := clientY event - moveCenterY tc in
  let normalizedX := clampedRatio dx (moveRadius tc) in
  let normalizedY := clampedRatio dy (moveRadius tc) in
  set_touchMovement (mkTouchMovement normalizedX normalizedY) s.

(** The move pad's pointerdown listener; [rect] is
    [movePad.getBoundingClientRect()].  [setPointerCapture] writes nothing
    the controller reads and is taken to return normally. *)
Definition movePadDown (event : PointerEvent) (rect : DOMRect)
    (tc : TouchControls) (s : Controls) : Controls :=
  let tc' := mkTouchControls (attached tc) (Some (pointerId event))
               (rleft rect + rwidth rect / 2) (rtop rect + rheight rect / 2)
               (rwidth rect / 2)
               (lookPointerId tc) (lastLookX tc) (lastLookY tc) in
  updateMove event tc' (set_touchControls (Some tc') s).

Definition movePadMove (event : PointerEvent) (tc : TouchControls)
    (s : Controls) : Controls :=
  if negb (sameId (pointerId event) (movePointerId tc)) then s
  else updateMove event tc s.

Definition resetMove (tc : TouchControls) (s : Controls) : Controls :=
  set_touchMovement (mkTouchMovement 0 0)
    (set_touchControls
       (Some (mkTouchControls (attached tc) None (moveCenterX tc)
                (moveCenterY tc) (moveRadius tc) (lookPointerId tc)
                (lastLookX tc) (lastLookY tc))) s).

Definition set_look (id : option Z) (x y : R) (tc : TouchControls)
    : TouchControls :=
  mkTouchControls (attached tc) (movePointerId tc) (moveCenterX tc)
    (moveCenterY tc) (moveRadius tc) id x y.

Definition lookPadDown (event : PointerEvent) (tc : TouchControls)
    (s : Controls) : Controls :=
  set_touchControls
    (Some (set_look (Some (pointerId event)) (clientX event) (clientY event)
             tc)) s.

Definition lookPadMove (event : PointerEvent) (tc : TouchControls)
    (s : Controls) : Controls :=
  if negb (sameId (pointerId event) (lookPointerId tc)) then s
  else
    let dx := clientX event - lastLookX tc in
    let dy := clientY event - lastLookY tc in
    let s1 := set_touchControls
                (Some (set_look (lookPointerId tc) (clientX event)
                         (clientY event) tc)) s in
    if gyroEnabled (state s1) then
      set_lookOffset
        (lookOffsetYaw s1 - dx * lookSpeed (state s1) * 1.2)
        (clamp (lookOffsetPitch s1 - dy * lookSpeed (state s1) * 1.2)
               (- PI / 3) (PI / 3))
        s1
    else
      updateRotation
        (set_yaw_pitch (yaw s1 - dx * lookSpeed (state s1) * 1.5)
                       (pitch s1 - dy * lookSpeed (state s1) * 1.5) s1).

Definition resetLook (tc : TouchControls) (s : Controls) : Controls :=
  set_touchControls
    (Some (set_look None (lastLookX tc) (lastLookY tc) tc)) s.

(** ** The per-frame update *)

Definition deg2rad (a : R) : R := a * PI / 180.

(** The gyro branch at the head of [update].  [setObjectQuaternion] and the
    multiplication by [qOffset] write [camera.quaternion] in turn; the camera
    is left with the last value. *)
Definition fuseOrientation (s : Controls) : Controls :=
  if gyroEnabled (state s) then
    match deviceOrientation s with
    | Some ev =>
        let a := deg2rad (nullish (alpha ev) 0) in
        let b := deg2rad (nullish (beta ev) 0) in
        let g := deg2rad (nullish (gamma ev) 0) in
        let orient := deg2rad (screenOrientation s) in
        let qOffset :=
          Quat.setFromEuler
            (mkEuler (lookOffsetPitch s) (lookOffsetYaw s) 0) in
        set_camera
          (Cam.setQuaternion (camera s)
             (Quat.multiply (setObjectQuaternion a b g orient) qOffset))
          s
    | None => s
    end
  else s.

Definition inputX (s : Controls) : R :=
  right (movement s) - left (movement s) + tmx (touchMovement s).

Definition inputZ (s : Controls) : R :=
  forward (movement s) - backward (movement s) - tmz (touchMovement s).

Definition inputY (s : Controls) : R :=
  up (movement s) - down (movement s).

Definition upAxis : Vector3 := vec3 0 1 0.

(** The [forward] vector of the two branches. *)
Definition forwardVector (s : Controls) : Vector3 :=
  if flyMode (state s) then
    Vec3Rot.applyEuler (vec3 0 0 (-1)) (rotation (camera s))
  else
    Vec.normalize (Vec.setY (Cam.getWorldDirection (camera s)) 0).

Definition rightVector (s : Controls) : Vector3 :=
  Vec.normalize (Vec.crossVectors (forwardVector s) upAxis).

(** [direction] before the unit clamp. *)
Definition rawDirection (s : Controls) : Vector3 :=
  let d := Vec.addScaledVector
             (Vec.addScaledVector Vec.zero (rightVector s) (inputX s))
             (forwardVector s) (inputZ s) in
  if flyMode (state s) then Vec.setY d (vy d + inputY s) else d.

(** [if (direction.lengthSq() > 1) direction.normalize()] *)
Definition unitClamp (d : Vector3) : Vector3 :=
  if Rlt_dec 1 (Vec.lengthSq d) then Vec.normalize d else d.

Definition direction (s : Controls) : Vector3 := unitClamp (rawDirection s).

(** The vector [addScaledVector] adds to the position. *)
Definition stepVector (delta : R) (s : Controls) : Vector3 :=
  Vec.multiplyScalar (direction s) (speed (state s) * delta).

(** Movement integration: the position after
    [camera.position.addScaledVector(direction, state.speed * delta)] and the
    walk-mode snap. *)
Definition integrate (delta : R) (s : Controls) : Vector3 :=
  let p := Vec.addScaledVector (position (camera s)) (direction s)
             (speed (state s) * delta) in
  if negb (flyMode (state s)) then Vec.setY p (walkHeight (state s)) else p.

(** The hits the guard asks the raycaster for. *)
Definition guardHits (previousPosition attempted : Vector3) (s : Controls)
    : list R :=
  let movementDelta := Vec.sub attempted previousPosition in
  let distance := Vec.length movementDelta in
  Ray.intersectObjects previousPosition (Vec.normalize movementDelta) 0
    (distance + colliderRadius s) (colliderTargets s).

(** Whether the collision guard rejects the step from [previousPosition] to
    [attempted]. *)
Definition rejects (previousPosition attempted : Vector3) (s : Controls)
    : bool :=
  match colliderTargets s with
  | [] => false
  | _ :: _ =>
      let distance := Vec.length (Vec.sub attempted previousPosition) in
      if Rlt_dec 0 distance then
        match guardHits previousPosition attempted s with
        | [] => false
        | hit :: _ =>
            if Rlt_dec hit (distance + colliderRadius s) then true else false
        end
      else false
  end.

(** Movement integration followed by the collision guard. *)
Definition moveAndCollide (delta : R) (s : Controls) : Controls :=
  let previousPosition := position (camera s) in
  let attempted := integrate delta s in
  if rejects previousPosition attempted s
  then set_camera (Cam.setPosition (camera s) previousPosition) s
  else set_camera (Cam.setPosition (camera s) attempted) s.

Definition update (delta : R) (s : Controls) : Controls :=
  moveAndCollide delta (fuseOrientation s).

(** ** Listeners' lifecycle and the sensor *)

Definition handleDeviceOrientation (event : DeviceOrientationEvent)
    (s : Controls) : Controls :=
  set_deviceOrientation (Some event) s.

(** [angle] is [screen.orientation?.angle ?? window.orientation], null when
    neither exists. *)
Definition handleOrientationChange (angle : option R) (s : Controls)
    : Controls :=
  set_screenOrientation (nullish angle 0) s.

Definition detach (t : option TouchControls) : option TouchControls :=
  match t with
  | Some tc =>
      Some (mkTouchControls false (movePointerId tc) (moveCenterX tc)
              (moveCenterY tc) (moveRadius tc) (lookPointerId tc)
              (lastLookX tc) (lastLookY tc))
  | None => None
  end.

Definition dispose (s : Controls) : Controls :=
  let ls :=
    Dom.removeEventListener Window "orientationchange"
      handleOrientationChangeH false
      (Dom.removeEventListener Window "deviceorientation"
         handleDeviceOrientationH false
         (Dom.removeEventListener DomElement "click" requestPointerLockH false
            (Dom.removeEventListener Document "keyup" onKeyUpH false
               (Dom.removeEventListener Document "keydown" onKeyDownH false
                  (Dom.removeEventListener Document "mousemove" onMouseMoveH
                     false
                     (Dom.removeEventListener Document "pointerlockchange"
                        onPointerLockChangeH false (listeners s))))))) in
  set_touchControls (detach (touchControls s)) (set_listeners ls s).

(** How the platform answers the permission step of [setGyroEnabled(true)]:
    [DeviceOrientationEvent.requestPermission] is absent, its promise
    resolves to a string, or the call or its promise throws. *)
Inductive Permission : Type :=
| NoRequestPermission
| Resolves (answer : string)
| Throws.

Definition setGyroDenied (s : Controls) : Controls * bool :=
  (set_state (set_gyroEnabled false (state s)) s, false).

(** [setGyroEnabled(enabled)]: the state left behind and the value the
    promise resolves to.  Before the [await] the function only reads
    [state.gyroAvailable], which nothing writes after construction, so [s] is
    the state at the moment the promise of [requestPermission] settles.
    [angle] is what [handleOrientationChange] reads from the screen. *)
Definition setGyroEnabled (enabled : bool) (permission : Permission)
    (angle : option R) (s : Controls) : Controls * bool :=
  if negb (gyroAvailable (state s)) then setGyroDenied s
  else
    let proceed :=
      let s1 := set_state (set_gyroEnabled enabled (state s)) s in
      if enabled then
        let s2 := handleOrientationChange angle s1 in
        let s3 :=
          set_listeners
            (Dom.addEventListener Window "orientationchange"
               handleOrientationChangeH false
               (Dom.addEventListener Window "deviceorientation"
                  handleDeviceOrientationH true (listeners s2))) s2 in
        let s4 := set_yaw_pitch (ey (rotation (camera s3)))
                    (ex (rotation (camera s3))) s3 in
        let s5 := set_lookOffset 0 0 s4 in
        (s5, gyroEnabled (state s5))
      else
        let s2 :=
          set_listeners
            (Dom.removeEventListener Window "orientationchange"
               handleOrientationChangeH false
               (Dom.removeEventListener Window "deviceorientation"
                  handleDeviceOrientationH false (listeners s1))) s1 in
        (s2, gyroEnabled (state s2)) in
    if enabled then
      match permission with
      | NoRequestPermission => proceed
      | Resolves answer =>
          if String.eqb answer "granted" then proceed else setGyroDenied s
      | Throws => setGyroDenied s
      end
    else proceed.

(** ** The rest of the control API *)

Definition setFlyMode (enabled : bool) (s : Controls) : Controls :=
  let s1 := set_state (set_flyMode enabled (state s)) s in
  if negb enabled
  then set_camera
         (Cam.setPosition (camera s1)
            (Vec.setY (position (camera s1)) (walkHeight (state s1)))) s1
  else s1.

Definition setSpeed (v : R) (s : Controls) : Controls :=
  set_state (set_speed v (state s)) s.

Definition setLookSpeed (v : R) (s : Controls) : Controls :=
  set_state (set_lookSpeed v (state s)) s.

Definition setColliders (colliders : list Object3D) (s : Controls)
    : Controls :=
  set_colliderTargets colliders s.

Definition setColliderRadius (radius : R) (s : Controls) : Controls :=
  set_colliderRadius radius s.

(** [getState: () => ({ ...state })] *)
Definition getState (s : Controls) : ControlState := state s.

(** ** Event traces

    One constructor per way the host reaches the controller: a DOM event
    or a call of the control API.  An event on the document, the render
    surface or the window is delivered while the matching listener is
    registered.  The listeners of the two joystick pads are anonymous and
    nothing ever removes them: an event dispatched on a pad reaches its
    handler whenever the pads exist, in the document or detached. *)

Inductive Event : Type :=
| PointerLockChangeEv (locked : bool)
| MouseMoveEv (movementX movementY : R)
| KeyDownEv (code : string)
| KeyUpEv (code : string)
| MovePadDownEv (event : PointerEvent) (rect : DOMRect)
| MovePadMoveEv (event : PointerEvent)
| MovePadUpEv
| LookPadDownEv (event : PointerEvent)
| LookPadMoveEv (event : PointerEvent)
| LookPadUpEv
| DeviceOrientationEv (event : DeviceOrientationEvent)
| OrientationChangeEv (angle : option R)
| UpdateCall (delta : R)
| DisposeCall
| SetFlyModeCall (enabled : bool)
| SetSpeedCall (v : R)
| SetLookSpeedCall (v : R)
| SetCollidersCall (colliders : list Object3D)
| SetColliderRadiusCall (radius : R)
| SetGyroEnabledCall (enabled : bool) (permission : Permission)
    (angle : option R).

Definition whenFires (t : Target) (type : string) (h : Handler)
    (f : Controls -> Controls) (s : Controls) : Controls :=
  if Dom.fires t type h (listeners s) then f s else s.

Definition onPad (f : TouchControls -> Controls -> Controls) (s : Controls)
    : Controls :=
  match touchControls s with
  | Some tc => f tc s
  | None => s
  end.

Definition step (e : Event) (s : Controls) : Controls :=
  match e with
  | PointerLockChangeEv locked =>
      whenFires Document "pointerlockchange" onPointerLockChangeH
        (onPointerLockChange locked) s
  | MouseMoveEv mx my =>
      whenFires Document "mousemove" onMouseMoveH (onMouseMove mx my) s
  | KeyDownEv code =>
      whenFires Document "keydown" onKeyDownH (onKeyDown code) s
  | KeyUpEv code => whenFires Document "keyup" onKeyUpH (onKeyUp code) s
  | MovePadDownEv ev rect => onPad (movePadDown ev rect) s
  | MovePadMoveEv ev => onPad (movePadMove ev) s
  | MovePadUpEv => onPad resetMove s
  | LookPadDownEv ev => onPad (lookPadDown ev) s
  | LookPadMoveEv ev => onPad (lookPadMove ev) s
  | LookPadUpEv => onPad resetLook s
  | DeviceOrientationEv ev =>
      whenFires Window "deviceorientation" handleDeviceOrientationH
        (handleDeviceOrientation ev) s
  | OrientationChangeEv angle =>
      whenFires Window "orientationchange" handleOrientationChangeH
        (handleOrientationChange angle) s
  | UpdateCall delta => update delta s
  | DisposeCall => dispose s
  | SetFlyModeCall enabled => setFlyMode enabled s
  | SetSpeedCall v => setSpeed v s
  | SetLookSpeedCall v => setLookSpeed v s
  | SetCollidersCall colliders => setColliders colliders s
  | SetColliderRadiusCall radius => setColliderRadius radius s
  | SetGyroEnabledCall enabled permission angle =>
      fst (setGyroEnabled enabled permission angle s)
  end.

(** Events are handled in order, oldest first. *)
Definition run (events : list Event) (s : Controls) : Controls :=
  fold_left (fun acc e => step e acc) events s.

(** * Scene helpers (the first part of src/src/models.ts)

    ** three.js: Box3 *)

(** A bounding box.  [EmptyBox] is the box of [makeEmpty()], whose corners
    are infinite; a box with finite corners is empty when its maximum lies
    below its minimum on some axis. *)
Inductive Box3 : Type :=
| EmptyBox
| Box (bmin bmax : Vector3).

Module Box.

Definition ltb (a b : R) : bool := if Rlt_dec a b then true else false.

(** [isEmpty()] *)
Definition isEmpty (b : Box3) : bool :=
  match b with
  | EmptyBox => true
  | Box mn mx =>
      ltb (vx mx) (vx mn) || ltb (vy mx) (vy mn) || ltb (vz mx) (vz mn)
  end.

(** [getSize(target)]: zero for an empty box. *)
Definition getSize (b : Box3) : Vector3 :=
  match b with
  | EmptyBox => Vec.zero
  | Box mn mx => if isEmpty b then Vec.zero else Vec.sub mx mn
  end.

(** [getCenter(target)]: the origin for an empty box. *)
Definition getCenter (b : Box3) : Vector3 :=
  match b with
  | EmptyBox => Vec.zero
  | Box mn mx =>
      if isEmpty b then Vec.zero
      else Vec.multiplyScalar
             (vec3 (vx mn + vx mx) (vy mn + vy mx) (vz mn + vz mx)) 0.5
  end.

(** The box moved by [d]. *)
Definition translate (b : Box3) (d : Vector3) : Box3 :=
  match b with
  | EmptyBox => EmptyBox
  | Box mn mx =>
      Box (vec3 (vx mn + vx d) (vy mn + vy d) (vz mn + vz d))
          (vec3 (vx mx + vx d) (vy mx + vy d) (vz mx + vz d))
  end.

(** The box of the same points scaled by [k] about the origin. *)
Definition scale (b : Box3) (k : R) : Box3 :=
  match b with
  | EmptyBox => EmptyBox
  | Box mn mx =>
      Box (vec3 (Rmin (k * vx mn) (k * vx mx)) (Rmin (k * vy mn) (k * vy mx))
                (Rmin (k * vz mn) (k * vz mx)))
          (vec3 (Rmax (k * vx mn) (k * vx mx)) (Rmax (k * vy mn) (k * vy mx))
                (Rmax (k * vz mn) (k * vz mx)))
  end.

End Box.

(** ** three.js: the scene objects the helpers read and write

    The fields of an [Object3D] that the helpers touch: [name], [visible],
    [position], [scale], [userData.layoutLocked] and [children].  The meshes
    below an object are seen only through [Box3.setFromObject]; [extent] is
    the box that call computes for the object and its descendants, taken
    relative to the object's position.  For an object without a transformed
    parent (the helpers are applied to the roots the loader returns) moving
    the object moves the box with it, and multiplying its scale by [k]
    scales the box by [k] about the object's position. *)

Module Obj.

#[warnings="-register-all"]
Inductive t : Type :=
| make (name : string) (visible : bool) (position scale : Vector3)
       (layoutLocked : bool) (extent : Box3) (children : list t).

Definition name (o : t) : string :=
  match o with make n _ _ _ _ _ _ => n end.
Definition visible (o : t) : bool :=
  match o with make _ v _ _ _ _ _ => v end.
Definition position (o : t) : Vector3 :=
  match o with make _ _ p _ _ _ _ => p end.
Definition scale (o : t) : Vector3 :=
  match o with make _ _ _ s _ _ _ => s end.
Definition layoutLocked (o : t) : bool :=
  match o with make _ _ _ _ l _ _ => l end.
Definition extent (o : t) : Box3 :=
  match o with make _ _ _ _ _ e _ => e end.
Definition children (o : t) : list t :=
  match o with make _ _ _ _ _ _ c => c end.

Definition setVisible (v : bool) (o : t) : t :=
  make (name o) v (position o) (scale o) (layoutLocked o) (extent o)
       (children o).

Definition setPosition (p : Vector3) (o : t) : t :=
  make (name o) (visible o) p (scale o) (layoutLocked o) (extent o)
       (children o).

(** [object.scale.multiplyScalar(k)] *)
Definition multiplyScale (k : R) (o : t) : t :=
  make (name o) (visible o) (position o) (Vec.multiplyScalar (scale o) k)
       (layoutLocked o) (Box.scale (extent o) k) (children o).

(** [new Box3().setFromObject(object)] *)
Definition worldBox (o : t) : Box3 := Box.translate (extent o) (position o).

(** The order in which [object.traverse(callback)] calls back: the object,
    then each child's subtree in turn. *)
Fixpoint traversal (o : t) : list t :=
  match o with
  | make _ _ _ _ _ _ cs =>
      o :: (fix each (l : list t) : list t :=
              match l with
              | [] => []
              | c :: rest => traversal c ++ each rest
              end) cs
  end.

End Obj.

(** [type LoadedModel = { name: string; object: Object3D }] *)
Record LoadedModel : Type := mkLoadedModel {
  lname : string;
  object : Obj.t
}.

(** ** normalizeModel *)

(** [Math.max(a, b, c)] *)
Definition max3 (a b c : R) : R := Rmax (Rmax a b) c.

(** [normalizeModel(object, { center, targetSize })]; [targetSize] is
    optional. *)
Definition normalizeModel (o : Obj.t) (center : bool) (targetSize : option R)
    : Obj.t :=
  let box := Obj.worldBox o in
  if Box.isEmpty box then o
  else
    let o1 :=
      if center
      then Obj.setPosition (Vec.sub (Obj.position o) (Box.getCenter box)) o
      else o in
    match targetSize with
    | Some size =>
        if Rlt_dec 0 size then
          let sz := Box.getSize box in
          let maxDimension := max3 (vx sz) (vy sz) (vz sz) in
          if Rlt_dec 0 maxDimension
          then Obj.multiplyScale (size / maxDimension) o1
          else o1
        else o1
    | None => o1
    end.

(** ** layoutModels *)

Definition setObject (o : Obj.t) (m : LoadedModel) : LoadedModel :=
  mkLoadedModel (lname m) o.

(** The body of the [forEach] of [layoutModels], threading [cursor]. *)
Fixpoint layoutFrom (cursor spacing : R) (alignToGround : bool)
    (models : list LoadedModel) : list LoadedModel :=
  match models with
  | [] => []
  | m :: rest =>
      let o := object m in
      if Obj.layoutLocked o then
        m :: layoutFrom cursor spacing alignToGround rest
      else
        let box := Obj.worldBox o in
        match box with
        | EmptyBox =>
            setObject
              (Obj.setPosition
                 (vec3 cursor (vy (Obj.position o)) (vz (Obj.position o))) o)
              m
            :: layoutFrom (cursor + spacing) spacing alignToGround rest
        | Box mn mx =>
            if Box.isEmpty box then
              setObject
                (Obj.setPosition
                   (vec3 cursor (vy (Obj.position o)) (vz (Obj.position o)))
                   o) m
              :: layoutFrom (cursor + spacing) spacing alignToGround rest
            else
              let size := Box.getSize box in
              let halfWidth := vx size / 2 in
              let y := if alignToGround
                       then vy (Obj.position o) - vy mn
                       else vy (Obj.position o) in
              setObject
                (Obj.setPosition
                   (vec3 (cursor + halfWidth) y (vz (Obj.position o))) o) m
              :: layoutFrom (cursor + (vx size + spacing)) spacing
                   alignToGround rest
        end
  end.

(** [layoutModels(models, { spacing, alignToGround })] *)
Definition layoutModels (models : list LoadedModel) (spacing : R)
    (alignToGround : bool) : list LoadedModel :=
  layoutFrom 0 spacing alignToGround models.

(** ** setModelsVisibility *)

(** [models.find(entry => entry.name === name)] and the write to
    [model.object.visible]. *)
Fixpoint setModelsVisibility (models : list LoadedModel) (name : string)
    (visible : bool) : list LoadedModel :=
  match models with
  | [] => []
  | m :: rest =>
      if String.eqb (lname m) name
      then setObject (Obj.setVisible visible (object m)) m :: rest
      else m :: setModelsVisibility rest name visible
  end.

(** ** findFirstByName *)

(** The traversal callback of [findFirstByName], with [found] threaded. *)
Definition visitFind (name : string) (found : option Obj.t) (child : Obj.t)
    : option Obj.t :=
  match found with
  | Some _ => found
  | None => if String.eqb (Obj.name child) name then Some child else None
  end.

Fixpoint findFirstByName (models : list LoadedModel) (name : string)
    : option Obj.t :=
  match models with
  | [] => None
  | m :: rest =>
      match fold_left (visitFind name) (Obj.traversal (object m)) None with
      | Some found => Some found
      | None => findFirstByName rest name
      end
  end.

(** ** collectByPrefix *)

(** [child.name.startsWith(prefix)] *)
Definition startsWith (prefix : string) (o : Obj.t) : bool :=
  String.prefix prefix (Obj.name o).

(** The traversal of one object by the callback of [collectByPrefix]: the
    object as the traversal leaves it, and the matches pushed, in order.
    [matches] holds references, so a match is listed as it is once the
    traversal is over, hidden descendants included. *)
Fixpoint collectIn (prefix : string) (hide : bool) (o : Obj.t)
    : Obj.t * list Obj.t :=
  match o with
  | Obj.make n v p s l e cs =>
      let visited :=
        (fix each (cs : list Obj.t) : list Obj.t * list Obj.t :=
           match cs with
           | [] => ([], [])
           | c :: rest =>
               let (c', found) := collectIn prefix hide c in
               let (rest', found') := each rest in
               (c' :: rest', found ++ found')
           end) cs in
      if String.prefix prefix n then
        let o' := Obj.make n (if hide then false else v) p s l e
                    (fst visited) in
        (o', o' :: snd visited)
      else
        (Obj.make n v p s l e (fst visited), snd visited)
  end.

(** [collectByPrefix(models, prefix, { hide })]: the models as the call
    leaves them, and the array it returns. *)
Fixpoint collectByPrefix (models : list LoadedModel) (prefix : string)
    (hide : bool) : list LoadedModel * list Obj.t :=
  match models with
  | [] => ([], [])
  | m :: rest =>
      let (o', found) := collectIn prefix hide (object m) in
      let (rest', found') := collectByPrefix rest prefix hide in
      (setObject o' m :: rest', found ++ found')
  end.

(** ** Vocabulary of the properties *)

(** The closed interval [updateRotation] clamps the pitch to. *)
Definition pitchClamped (p : R) : Prop := pitchMin <= p <= pitchMax.

(** The open interval of the same bounds. *)
Definition pitchStrictlyInside (p : R) : Prop := pitchMin < p < pitchMax.

(** In walk mode the camera stands at [walkHeight]. *)
Definition walkPinned (s : Controls) : Prop :=
  flyMode (state s) = false ->
  vy (position (camera s)) = walkHeight (state s).

(** The camera of [createCamera]: at (0, 1, 5), unrotated. *)
Definition spawnPosition : Vector3 := vec3 0 1 5.
Definition noRotation : Euler := mkEuler 0 0 0.

(** A desktop browser (fine pointer) and a phone (coarse pointer), both with
    the device-orientation API. *)
Definition desktop : Browser := mkBrowser true false.
Definition phone : Browser := mkBrowser true true.

Definition freshControls (browser : Browser) : Controls :=
  createWalkFlyControls spawnPosition noRotation browser.

(** The permission outcomes on which [setGyroEnabled(true)] must report
    failure: the request throws or resolves to anything but "granted". *)
Definition refused (permission : Permission) : Prop :=
  match permission with
  | NoRequestPermission => False
  | Resolves answer => answer <> "granted"%string
  | Throws => True
  end.

(** *** Keyboard edges *)

Inductive KeyEdge : Type :=
| Press (code : string)
| Release (code : string).

Definition keyStep (e : KeyEdge) (s : Controls) : Controls :=
  match e with
  | Press code => onKeyDown code s
  | Release code => onKeyUp code s
  end.

Definition runKeys (edges : list KeyEdge) (s : Controls) : Controls :=
  fold_left (fun acc e => keyStep e acc) edges s.

Inductive Flag : Type :=
| FForward | FBackward | FLeft | FRight | FUp | FDown.

Definition getFlag (f : Flag) (m : Movement) : R :=
  match f with
  | FForward => forward m
  | FBackward => backward m
  | FLeft => left m
  | FRight => right m
  | FUp => up m
  | FDown => down m
  end.

Definition flag_eqb (a b : Flag) : bool :=
  match a, b with
  | FForward, FForward | FBackward, FBackward | FLeft, FLeft
  | FRight, FRight | FUp, FUp | FDown, FDown => true
  | _, _ => false
  end.

(** The key table of the two [switch] statements. *)
Definition flagOf (code : string) : option Flag :=
  (if (code =? "KeyW") || (code =? "ArrowUp") then Some FForward
   else if (code =? "KeyS") || (code =? "ArrowDown") then Some FBackward
   else if (code =? "KeyA") || (code =? "ArrowLeft") then Some FLeft
   else if (code =? "KeyD") || (code =? "ArrowRight") then Some FRight
   else if code =? "Space" then Some FUp
   else if (code =? "ShiftLeft") || (code =? "ShiftRight") then Some FDown
   else None)%string.

Definition bound (code : string) (f : Flag) : bool :=
  match flagOf code with Some g => flag_eqb g f | None => false end.

(** The latest edge of key [code]: [Some true] for a press, [Some false]
    for a release, [None] when the key was not touched. *)
Fixpoint lastEdge (code : string) (edges : list KeyEdge) : option bool :=
  match edges with
  | [] => None
  | e :: rest =>
      match lastEdge code rest with
      | Some b => Some b
      | None =>
          match e with
          | Press c => if String.eqb c code then Some true else None
          | Release c => if String.eqb c code then Some false else None
          end
      end
  end.

(** Whether key [code] is down after [edges]: its latest edge is a press. *)
Definition held (code : string) (edges : list KeyEdge) : bool :=
  match lastEdge code edges with Some true => true | _ => false end.

(** The latest edge among the keys bound to flag [f]: [Some true] for a
    press, [Some false] for a release, [None] when no such key was touched. *)
Fixpoint lastBound (f : Flag) (edges : list KeyEdge) : option bool :=
  match edges with
  | [] => None
  | e :: rest =>
      match lastBound f rest with
      | Some b => Some b
      | None =>
          match e with
          | Press c => if bound c f then Some true else None
          | Release c => if bound c f then Some false else None
          end
      end
  end.

(** What an event that neither moves the camera nor switches mode leaves
    alone. *)
Definition sameFooting (s s' : Controls) : Prop :=
  flyMode (state s') = flyMode (state s) /\
  walkHeight (state s') = walkHeight (state s) /\
  position (camera s') = position (camera s).

(** *** Scenarios *)



(** *** Nearest hit *)

Definition nonneg (d : R) : bool := if Rlt_dec d 0 then false else true.

(** The nearest intersection of the ray (origin, direction) with the
    colliders, at any distance ahead of the origin. *)
Definition nearestHit (origin direction : Vector3) (objects : list Object3D)
    : option R :=
  hd_error
    (Ray.sort (flat_map (fun o => filter nonneg (raycast o origin direction))
                        objects)).

(** A wall: the plane z = [z0].  A ray meets it where its z coordinate
    reaches [z0], if it is not parallel to the plane. *)
Definition wallAtZ (z0 : R) : Object3D :=
  mkObject3D (fun origin direction =>
                if Req_dec_T (vz direction) 0 then []
                else [(z0 - vz origin) / vz direction]).

(** The fresh camera stands at z = 5 looking down -z; a wall at z = 4 is
    1.0 ahead.  W is held and the speed is [v], so that a frame of one
    second attempts a forward step of length [v]. *)
Definition facingWall (v : R) : Controls :=
  setSpeed v
    (onKeyDown "KeyW"
       (setColliderRadius 0.35
          (setColliders [wallAtZ 4] (freshControls desktop)))).

(** A phone lying flat: alpha, beta and gamma all 0. *)
Definition flatReading : DeviceOrientationEvent :=
  mkDeviceOrientationEvent (Some 0) (Some 0) (Some 0).

(** Gyro mode granted on the phone and one reading received. *)
Definition gyroFlat : Controls :=
  run [SetGyroEnabledCall true (Resolves "granted") (Some 0);
       DeviceOrientationEv flatReading]
      (freshControls phone).

Definition thumb : PointerEvent := mkPointerEvent 1 0 0.

(** One frame in gyro mode, gyro switched off, a thumb put on the look
    pad. *)
Definition gyroSwitchedOff : Controls :=
  run [UpdateCall 1;
       SetGyroEnabledCall false NoRequestPermission None;
       LookPadDownEv thumb]
      gyroFlat.

(** *** One frame *)

(** Whether the collision guard of [update(delta)] rejects the step: the
    test of the guard at the position and the direction the frame has
    after the gyro branch. *)
Definition frameRejected (delta : R) (s : Controls) : bool :=
  rejects (position (camera (fuseOrientation s)))
          (integrate delta (fuseOrientation s)) (fuseOrientation s).



(** ** Proof automation *)

(** Case analysis on every conditional of the goal. *)
Ltac break_branches :=
  repeat match goal with
         | |- context [if ?b then _ else _] => destruct b
         | |- context [match ?x with _ => _ end] => destruct x
         end.


(** ** Vocabulary of the further properties *)




(** The cone the look offset is clamped to. *)
Definition lookOffsetBounded (s : Controls) : Prop :=
  - PI / 3 <= lookOffsetPitch s <= PI / 3.

Definition unitCamera (s : Controls) : Prop :=
  Quat.normSq (quaternion (camera s)) = 1.

(** The capture-phase sensor listener [setGyroEnabled] registers. *)
Definition sensorListener : Listener :=
  mkListener Window "deviceorientation" handleDeviceOrientationH true.

(** The listeners the controller registers on the document, the render
    surface and the window: the ones it keeps a handle to.  The eight
    anonymous listeners of the joystick pads are not in this registry (see
    [onPad]). *)
Definition controllerListeners : list Listener :=
  [ mkListener Document "pointerlockchange" onPointerLockChangeH false;
    mkListener Document "mousemove" onMouseMoveH false;
    mkListener Document "keydown" onKeyDownH false;
    mkListener Document "keyup" onKeyUpH false;
    mkListener DomElement "click" requestPointerLockH false;
    mkListener Window "orientationchange" handleOrientationChangeH false;
    sensorListener ].

Definition ownListeners (s : Controls) : Prop :=
  forall l, In l (listeners s) -> In l controllerListeners.

(** The only listener [dispose] can leave in the registry. *)
Definition onlySensorListener (s : Controls) : Prop :=
  forall l, In l (listeners s) -> l = sensorListener.

(** The events dispatched on the document or the window that carry user
    input or the screen angle.  Events on the joystick pads are left out:
    their listeners are never removed. *)
Definition isGlobalInput (e : Event) : bool :=
  match e with
  | PointerLockChangeEv _ | MouseMoveEv _ _ | KeyDownEv _ | KeyUpEv _
  | OrientationChangeEv _ => true
  | _ => false
  end.

(** Anything but a call [setGyroEnabled(true)] running to its end, the one
    thing that registers listeners after construction.  The event stands
    at the moment the permission step settles, so a call made earlier
    whose prompt is answered now is such an event. *)
Definition keepsGyroOff (e : Event) : bool :=
  match e with
  | SetGyroEnabledCall true _ _ => false
  | _ => true
  end.




(** Whether the permission step lets [setGyroEnabled(true)] proceed. *)
Definition granted (permission : Permission) : bool :=
  match permission with
  | NoRequestPermission => true
  | Resolves answer => String.eqb answer "granted"
  | Throws => false
  end.

(** What the traversal of [collectByPrefix] guarantees about one object
    [o], its image [o'] and the matches pushed below it. *)
Definition collected (prefix : string) (hide : bool) (o o' : Obj.t)
    (found : list Obj.t) : Prop :=
  found = filter (startsWith prefix) (Obj.traversal o') /\
  map Obj.name (Obj.traversal o') = map Obj.name (Obj.traversal o) /\
  map Obj.visible (Obj.traversal o') =
    map (fun x => if hide && startsWith prefix x then false
                  else Obj.visible x) (Obj.traversal o) /\
  (hide = false -> o' = o).

(** How [layoutModels] may change a model: only the position of its
    object, never its z coordinate, and nothing at all when the object is
    locked. *)
Definition placedLike (m m' : LoadedModel) : Prop :=
  lname m' = lname m /\
  object m' = Obj.setPosition (Obj.position (object m')) (object m) /\
  vz (Obj.position (object m')) = vz (Obj.position (object m)) /\
  (Obj.layoutLocked (object m) = true -> m' = m).

(** The object's box rests on the plane y = 0. *)
Definition grounded (o : Obj.t) : Prop :=
  match Obj.worldBox o with
  | Box mn _ => vy mn = 0
  | EmptyBox => True
  end.

(** The object has geometry, and its box is centred in x on its origin. *)
Definition centredX (o : Obj.t) : Prop :=
  match Obj.extent o with
  | Box mn mx => Box.isEmpty (Box mn mx) = false /\ vx mn = - vx mx
  | EmptyBox => False
  end.

(** The boxes of [models] stand side by side along x: the first starts at
    [cursor], each next one [spacing] after the end of the one before. *)
Fixpoint packedFrom (cursor spacing : R) (models : list LoadedModel) : Prop :=
  match models with
  | [] => True
  | m :: rest =>
      match Obj.worldBox (object m) with
      | Box mn mx =>
          vx mn = cursor /\ packedFrom (vx mx + spacing) spacing rest
      | EmptyBox => False
      end
  end.

(** A unit cube centred on its origin, as a loaded model. *)
Definition cubeModel (name : string) (position : Vector3) : LoadedModel :=
  mkLoadedModel name
    (Obj.make name true position (vec3 1 1 1) false
       (Box (vec3 (-0.5) (-0.5) (-0.5)) (vec3 0.5 0.5 0.5)) []).

(** A phone held upright in portrait (beta = 90 degrees, gamma = 0) with
    compass angle [a] degrees. *)
Definition uprightReading (a : R) : DeviceOrientationEvent :=
  mkDeviceOrientationEvent (Some a) (Some 90) (Some 0).

(** * Properties *)

(** ** Mouse look is gated by pointer lock and by gyro mode *)

(** C8: while gyro mode is on, or while the pointer is not locked, a mouse
    movement leaves the whole controller (yaw and pitch accumulators and the
    camera rotation included) unchanged; with gyro off and the pointer
    locked the deltas are subtracted from the accumulators, scaled by the
    look speed, and written to the camera. *)
Theorem mouse_look_gated (mx my : R) (s : Controls) :
  (gyroEnabled (state s) = true \/ isPointerLocked s = false ->
   onMouseMove mx my s = s) /\
  (gyroEnabled (state s) = false -> isPointerLocked s = true ->
   yaw (onMouseMove mx my s) = yaw s - mx * lookSpeed (state s) /\
   pitch (onMouseMove mx my s) =
     clamp (pitch s - my * lookSpeed (state s)) pitchMin pitchMax /\
   rotation (camera (onMouseMove mx my s)) =
     mkEuler (pitch (onMouseMove mx my s)) (yaw (onMouseMove mx my s)) 0).
Proof.
  unfold onMouseMove. split.
  - intros [Hg | Hl].
    + rewrite Hg. now destruct (isPointerLocked s).
    + now rewrite Hl.
  - intros Hg Hl. rewrite Hg, Hl. cbn. repeat split.
Qed.

Lemma mouse_look_gated_witness :
  onMouseMove 10 5 (freshControls desktop) = freshControls desktop.
Proof.
  apply (proj1 (mouse_look_gated 10 5 (freshControls desktop))).
  right. reflexivity.
Defined.

(** ** Gyro activation *)

Lemma setGyroDenied_spec (s : Controls) :
  snd (setGyroDenied s) = false /\
  gyroEnabled (getState (fst (setGyroDenied s))) = false.
Proof. split; reflexivity. Qed.

(** C6: when the device-orientation API is unavailable, or the permission
    request is denied or throws, [setGyroEnabled(true)] resolves to false
    and leaves [gyroEnabled] false.  The model is a total function: no
    outcome of the permission step escapes as an exception. *)
Theorem setGyroEnabled_refused (permission : Permission) (angle : option R)
    (s : Controls) :
  gyroAvailable (state s) = false \/ refused permission ->
  snd (setGyroEnabled true permission angle s) = false /\
  gyroEnabled (getState (fst (setGyroEnabled true permission angle s)))
    = false.
Proof.
  intros H. unfold setGyroEnabled.
  destruct (gyroAvailable (state s)) eqn:Ha; cbn [negb].
  - destruct H as [H | H]; [discriminate |].
    destruct permission as [| answer |]; cbn in H.
    + contradiction.
    + destruct (String.eqb_spec answer "granted") as [-> | _].
      * now elim H.
      * apply setGyroDenied_spec.
    + apply setGyroDenied_spec.
  - apply setGyroDenied_spec.
Qed.

Lemma setGyroEnabled_refused_witness :
  snd (setGyroEnabled true (Resolves "denied") None (freshControls phone))
    = false /\
  gyroEnabled (getState (fst (setGyroEnabled true (Resolves "denied") None
                                (freshControls phone)))) = false.
Proof.
  apply (setGyroEnabled_refused (Resolves "denied") None
           (freshControls phone)).
  right. cbn. discriminate.
Defined.

(** ** Disposal *)

Lemma filter_absorb {A : Type} (f g : A -> bool) (l : list A) :
  filter f (filter g l) = filter (fun x => g x && f x) l.
Proof.
  induction l as [| a l IH]; cbn; [reflexivity |].
  destruct (g a); cbn; [destruct (f a) |]; now rewrite ?IH.
Qed.

Lemma filter_twice {A : Type} (f : A -> bool) (l : list A) :
  filter f (filter f l) = filter f l.
Proof.
  rewrite filter_absorb. apply filter_ext. intros a. now destruct (f a).
Qed.

Lemma detach_twice (t : option TouchControls) :
  detach (detach t) = detach t.
Proof. now destruct t. Qed.

(** C9: a second [dispose()] changes nothing: it is a total function, and
    applied to a disposed controller it returns the same controller, with
    the same registered listeners and the same (detached) joystick
    container. *)
Theorem dispose_idempotent (s : Controls) :
  dispose (dispose s) = dispose s /\
  listeners (dispose (dispose s)) = listeners (dispose s) /\
  touchControls (dispose (dispose s)) = touchControls (dispose s).
Proof.
  assert (H : dispose (dispose s) = dispose s).
  { destruct s. unfold dispose, Dom.removeEventListener, set_touchControls,
      set_listeners. cbn. f_equal.
    - rewrite !filter_absorb. apply filter_ext. intros a.
      repeat match goal with
             | |- context [listener_eqb ?l a] =>
                 destruct (listener_eqb l a); cbn
             end; reflexivity.
    - apply detach_twice. }
  rewrite H. repeat split.
Qed.

(** ** Gyro mode before the first sensor reading *)



(** ** Keyboard flags and the input vector *)

Lemma setKey_flag (code : string) (v : R) (m : Movement) (f : Flag) :
  getFlag f (setKey code v m) = if bound code f then v else getFlag f m.
Proof.
  unfold setKey, bound, flagOf.
  repeat match goal with
         | |- context [String.eqb code ?k] =>
             destruct (String.eqb code k); cbn [orb]
         end; destruct f; reflexivity.
Qed.

Lemma setKey_unbound (code : string) (v : R) (m : Movement) :
  flagOf code = None -> setKey code v m = m.
Proof.
  unfold setKey, flagOf.
  repeat match goal with
         | |- context [String.eqb code ?k] =>
             destruct (String.eqb code k); cbn [orb]
         end; intros H; try discriminate; reflexivity.
Qed.

Lemma set_movement_same (s : Controls) : set_movement (movement s) s = s.
Proof. now destruct s. Qed.

Lemma runKeys_flag (f : Flag) (edges : list KeyEdge) :
  forall s,
    getFlag f (movement (runKeys edges s)) =
    match lastBound f edges with
    | Some true => 1
    | Some false => 0
    | None => getFlag f (movement s)
    end.
Proof.
  induction edges as [| e rest IH]; intros s; [reflexivity |].
  cbn [runKeys fold_left lastBound]. fold (runKeys rest (keyStep e s)).
  rewrite IH. destruct (lastBound f rest) as [[|] |]; try reflexivity.
  destruct e as [c | c]; cbn; rewrite setKey_flag;
    now destruct (bound c f).
Qed.

Lemma runKeys_touchMovement (edges : list KeyEdge) :
  forall s, touchMovement (runKeys edges s) = touchMovement s.
Proof.
  induction edges as [| e rest IH]; intros s; [reflexivity |].
  cbn [runKeys fold_left]. fold (runKeys rest (keyStep e s)).
  rewrite IH. now destruct e.
Qed.

(** C7, as stated, fails on keys that share a flag: after pressing KeyW,
    pressing ArrowUp and releasing ArrowUp, KeyW is still held but
    [movement.forward] is 0. *)
Lemma flag_not_key_held :
  ~ (forall (edges : list KeyEdge) (code : string) (f : Flag),
       flagOf code = Some f ->
       (getFlag f (movement (runKeys edges (freshControls desktop))) = 1 <->
        held code edges = true)).
Proof.
  intros H.
  specialize (H [Press "KeyW"; Press "ArrowUp"; Release "ArrowUp"]%string
                "KeyW"%string FForward eq_refl).
  cbn in H. destruct H as [_ H]. specialize (H eq_refl). lra.
Qed.

(** C7, amended: after any sequence of key presses and releases each
    movement flag is 1 when the latest edge among the keys bound to it was a
    press, 0 when it was a release, and untouched when none of its keys
    occurred; a key outside the table changes nothing; and the input vector
    [update] reads is the sum of the flag contributions and the joystick
    axes. *)
Theorem keyboard_flags_and_input (edges : list KeyEdge) (s : Controls) :
  (forall f : Flag,
     getFlag f (movement (runKeys edges s)) =
     match lastBound f edges with
     | Some true => 1
     | Some false => 0
     | None => getFlag f (movement s)
     end) /\
  (forall code : string,
     flagOf code = None -> onKeyDown code s = s /\ onKeyUp code s = s) /\
  (let s' := runKeys edges s in
   inputX s' = getFlag FRight (movement s') - getFlag FLeft (movement s')
               + tmx (touchMovement s) /\
   inputZ s' = getFlag FForward (movement s') - getFlag FBackward (movement s')
               - tmz (touchMovement s) /\
   inputY s' = getFlag FUp (movement s') - getFlag FDown (movement s')).
Proof.
  split; [| split].
  - intros f. apply runKeys_flag.
  - intros code H. unfold onKeyDown, onKeyUp.
    rewrite !(setKey_unbound code _ _ H). split; apply set_movement_same.
  - cbn zeta. unfold inputX, inputZ, inputY.
    rewrite runKeys_touchMovement. repeat split.
Qed.

Lemma keyboard_flags_and_input_witness :
  onKeyDown "KeyQ" (freshControls desktop) = freshControls desktop /\
  onKeyUp "KeyQ" (freshControls desktop) = freshControls desktop.
Proof.
  apply (proj1 (proj2 (keyboard_flags_and_input [] (freshControls desktop)))
           "KeyQ"%string).
  reflexivity.
Defined.

(** ** Standing at walk height is invariant *)

Lemma sameFooting_refl (s : Controls) : sameFooting s s.
Proof. repeat split. Qed.

Lemma sameFooting_pinned (s s' : Controls) :
  sameFooting s s' -> walkPinned s -> walkPinned s'.
Proof.
  intros (Hf & Hw & Hp) H Hwalk. rewrite Hw, Hp. apply H. now rewrite <- Hf.
Qed.

Lemma fuseOrientation_footing (s : Controls) :
  sameFooting s (fuseOrientation s).
Proof. unfold fuseOrientation. break_branches; repeat split. Qed.

Lemma whenFires_footing (t : Target) (type : string) (h : Handler)
    (f : Controls -> Controls) (s : Controls) :
  (forall s0, sameFooting s0 (f s0)) -> sameFooting s (whenFires t type h f s).
Proof.
  intros H. unfold whenFires. destruct (Dom.fires t type h (listeners s));
    [apply H | apply sameFooting_refl].
Qed.

Lemma onPad_footing (f : TouchControls -> Controls -> Controls)
    (s : Controls) :
  (forall tc s0, sameFooting s0 (f tc s0)) -> sameFooting s (onPad f s).
Proof.
  intros H. unfold onPad. destruct (touchControls s) as [tc |];
    [apply H | apply sameFooting_refl].
Qed.

Lemma setGyroEnabled_footing (enabled : bool) (permission : Permission)
    (angle : option R) (s : Controls) :
  sameFooting s (fst (setGyroEnabled enabled permission angle s)).
Proof.
  unfold setGyroEnabled, setGyroDenied. break_branches; repeat split.
Qed.

Lemma integrate_walk (delta : R) (s : Controls) :
  flyMode (state s) = false ->
  vy (integrate delta s) = walkHeight (state s).
Proof. intros H. unfold integrate. now rewrite H. Qed.

Lemma moveAndCollide_pinned (delta : R) (s : Controls) :
  walkPinned s -> walkPinned (moveAndCollide delta s).
Proof.
  intros H Hwalk. unfold moveAndCollide in *.
  destruct (rejects (position (camera s)) (integrate delta s) s);
    cbn in *; [now apply H | now apply integrate_walk].
Qed.

Lemma update_pinned (delta : R) (s : Controls) :
  walkPinned s -> walkPinned (update delta s).
Proof.
  intros H. unfold update. apply moveAndCollide_pinned.
  apply (sameFooting_pinned s); [apply fuseOrientation_footing | exact H].
Qed.

Lemma setFlyMode_pinned (enabled : bool) (s : Controls) :
  walkPinned (setFlyMode enabled s).
Proof. unfold setFlyMode, walkPinned. destruct enabled; cbn; congruence. Qed.

Lemma step_pinned (e : Event) (s : Controls) :
  walkPinned s -> walkPinned (step e s).
Proof.
  intros H.
  destruct e; cbn [step];
    first [ now apply update_pinned
          | apply setFlyMode_pinned
          | apply (sameFooting_pinned s); [| exact H] ].
  all: try (apply whenFires_footing; intros s0).
  all: try (apply onPad_footing; intros tc s0).
  all: try apply setGyroEnabled_footing.
  all: unfold onPointerLockChange, onMouseMove, updateRotation, onKeyDown,
         onKeyUp, movePadDown, movePadMove, updateMove, resetMove,
         lookPadDown, lookPadMove, updateRotation, resetLook,
         handleDeviceOrientation, handleOrientationChange, dispose,
         setSpeed, setLookSpeed, setColliders, setColliderRadius;
       break_branches; repeat split.
Qed.

Lemma run_pinned (events : list Event) :
  forall s, walkPinned s -> walkPinned (run events s).
Proof.
  induction events as [| e rest IH]; intros s H; [exact H |].
  cbn [run fold_left]. apply IH. now apply step_pinned.
Qed.

Lemma createWalkFlyControls_pinned (position0 : Vector3) (rotation0 : Euler)
    (browser : Browser) :
  walkPinned (createWalkFlyControls position0 rotation0 browser).
Proof. intros H. discriminate H. Qed.

(** ** Vectors *)

Lemma vec3_eq (a b : Vector3) :
  vx a = vx b -> vy a = vy b -> vz a = vz b -> a = b.
Proof. destruct a, b; cbn; intros; subst; reflexivity. Qed.

Lemma lengthSq_nonneg (v : Vector3) : 0 <= Vec.lengthSq v.
Proof. unfold Vec.lengthSq. nra. Qed.


Lemma length_sq (v : Vector3) : Vec.length v * Vec.length v = Vec.lengthSq v.
Proof. apply sqrt_sqrt, lengthSq_nonneg. Qed.

Lemma length_of_sq (v : Vector3) (r : R) :
  0 <= r -> Vec.lengthSq v = r * r -> Vec.length v = r.
Proof.
  intros Hr H. unfold Vec.length. rewrite H. now apply sqrt_square.
Qed.

Lemma length_zero_iff (v : Vector3) : Vec.length v = 0 <-> v = Vec.zero.
Proof.
  split.
  - intros H. apply sqrt_eq_0 in H; [| apply lengthSq_nonneg].
    unfold Vec.lengthSq in H. apply vec3_eq; cbn; nra.
  - intros ->. unfold Vec.length, Vec.lengthSq. cbn.
    replace (0 * 0 + 0 * 0 + 0 * 0) with 0 by ring. apply sqrt_0.
Qed.






(** ** Rotations keep lengths *)

Lemma setFromEuler_unit (e : Euler) : Quat.normSq (Quat.setFromEuler e) = 1.
Proof.
  unfold Quat.normSq, Quat.setFromEuler. cbn.
  pose proof (sin2_cos2 (ex e / 2)) as H1.
  pose proof (sin2_cos2 (ey e / 2)) as H2.
  pose proof (sin2_cos2 (ez e / 2)) as H3.
  unfold Rsqr in *.
  set (s1 := sin (ex e / 2)) in *. set (c1 := cos (ex e / 2)) in *.
  set (s2 := sin (ey e / 2)) in *. set (c2 := cos (ey e / 2)) in *.
  set (s3 := sin (ez e / 2)) in *. set (c3 := cos (ez e / 2)) in *.
  transitivity ((s1 * s1 + c1 * c1) * (s2 * s2 + c2 * c2)
                * (s3 * s3 + c3 * c3)); [ring |].
  rewrite H1, H2, H3. ring.
Qed.

Lemma applyQuaternion_lengthSq (v : Vector3) (q : Quaternion) :
  Vec.lengthSq (Vec3Rot.applyQuaternion v q) =
  Vec.lengthSq v
  + 4 * Vec.lengthSq (Vec.crossVectors (vec3 (qx q) (qy q) (qz q)) v)
    * (Quat.normSq q - 1).
Proof.
  unfold Vec.lengthSq, Vec3Rot.applyQuaternion, Vec.crossVectors, Quat.normSq.
  cbn. ring.
Qed.

Lemma applyEuler_length (v : Vector3) (e : Euler) :
  Vec.length (Vec3Rot.applyEuler v e) = Vec.length v.
Proof.
  unfold Vec.length, Vec3Rot.applyEuler.
  rewrite applyQuaternion_lengthSq, setFromEuler_unit. f_equal. ring.
Qed.

Lemma forwardVector_fly_unit (s : Controls) :
  flyMode (state s) = true -> Vec.length (forwardVector s) = 1.
Proof.
  intros H. unfold forwardVector. rewrite H, applyEuler_length.
  apply length_of_sq; [lra |]. unfold Vec.lengthSq. cbn. ring.
Qed.


(** ** Diagonal input *)


Lemma setY_same (v : Vector3) : Vec.setY v (vy v + 0) = v.
Proof. apply vec3_eq; cbn; ring. Qed.



Lemma direction_forward_only (s : Controls) :
  Vec.length (forwardVector s) = 1 ->
  inputX s = 0 -> inputZ s = 1 -> inputY s = 0 ->
  direction s = forwardVector s.
Proof.
  intros Hf Hx Hz Hy. unfold direction, rawDirection. rewrite Hx, Hz, Hy.
  set (r := rightVector s).
  assert (E : Vec.addScaledVector (Vec.addScaledVector Vec.zero r 0)
                (forwardVector s) 1 = forwardVector s)
    by (apply vec3_eq; cbn; ring).
  rewrite E. destruct (flyMode (state s)); rewrite ?setY_same;
    unfold unitClamp;
    (destruct (Rlt_dec 1 (Vec.lengthSq (forwardVector s))) as [H | _];
     [| reflexivity]);
    rewrite <- length_sq, Hf in H; lra.
Qed.


(** ** The raycaster's ordering *)

Lemma insert_In (d x : R) (l : list R) :
  In x (Ray.insert d l) <-> x = d \/ In x l.
Proof.
  induction l as [| h t IH]; cbn.
  - intuition.
  - destruct (Rle_dec d h); cbn; [intuition | rewrite IH; intuition].
Qed.

Lemma sort_In (x : R) (l : list R) : In x (Ray.sort l) <-> In x l.
Proof.
  induction l as [| h t IH]; cbn; [reflexivity |].
  rewrite insert_In, IH. intuition.
Qed.

Lemma insert_sorted (d : R) (l : list R) :
  StronglySorted Rle l -> StronglySorted Rle (Ray.insert d l).
Proof.
  induction 1 as [| h t Ht IH Hall]; cbn.
  - repeat constructor.
  - destruct (Rle_dec d h) as [Hle | Hgt].
    + constructor; [now constructor |].
      constructor; [exact Hle |].
      rewrite Forall_forall in *. intros x Hx. specialize (Hall x Hx). lra.
    + constructor; [exact IH |].
      rewrite Forall_forall in *. intros x Hx.
      apply insert_In in Hx. destruct Hx as [-> | Hx]; [lra | now apply Hall].
Qed.

Lemma sort_sorted (l : list R) : StronglySorted Rle (Ray.sort l).
Proof.
  induction l as [| h t IH]; cbn; [constructor | now apply insert_sorted].
Qed.

Lemma sort_head_least (l : list R) (h : R) (t : list R) :
  Ray.sort l = h :: t -> In h l /\ forall x, In x l -> h <= x.
Proof.
  intros E. split.
  - apply sort_In. rewrite E. now left.
  - intros x Hx. apply sort_In in Hx. rewrite E in Hx.
    pose proof (sort_sorted l) as S. rewrite E in S.
    inversion S as [| ? ? _ Hall]; subst.
    destruct Hx as [<- | Hx]; [lra |].
    rewrite Forall_forall in Hall. now apply Hall.
Qed.

Lemma sort_nil (l : list R) : Ray.sort l = [] -> l = [].
Proof.
  destruct l as [| h t]; [reflexivity |]. intros E.
  assert (H : In h (Ray.sort (h :: t))) by (apply sort_In; now left).
  rewrite E in H. contradiction.
Qed.

Lemma in_reported (origin direction : Vector3) (far x : R)
    (objects : list Object3D) :
  In x (flat_map (fun o => filter (Ray.inRange 0 far)
                             (raycast o origin direction)) objects) <->
  In x (flat_map (fun o => filter nonneg (raycast o origin direction))
                 objects) /\ x <= far.
Proof.
  rewrite !in_flat_map. split.
  - intros (o & Ho & Hx). apply filter_In in Hx. destruct Hx as [Hx Hr].
    unfold Ray.inRange in Hr.
    destruct (Rlt_dec x 0); [discriminate |].
    destruct (Rlt_dec far x); [discriminate |].
    split; [| lra]. exists o. split; [exact Ho |].
    apply filter_In. split; [exact Hx |]. unfold nonneg.
    now destruct (Rlt_dec x 0).
  - intros ((o & Ho & Hx) & Hfar). exists o. split; [exact Ho |].
    apply filter_In in Hx. destruct Hx as [Hx Hn]. apply filter_In.
    split; [exact Hx |]. unfold nonneg in Hn. unfold Ray.inRange.
    destruct (Rlt_dec x 0); [discriminate |].
    destruct (Rlt_dec far x); [lra | reflexivity].
Qed.

(** The head of the far-limited, sorted hit list is below [far] exactly when
    the nearest hit at any distance is. *)
Lemma first_hit_iff_nearest (origin direction : Vector3) (far : R)
    (objects : list Object3D) :
  (exists h t, Ray.intersectObjects origin direction 0 far objects = h :: t
               /\ h < far) <->
  (exists d, nearestHit origin direction objects = Some d /\ d < far).
Proof.
  unfold Ray.intersectObjects, nearestHit.
  set (Lf := flat_map (fun o => filter (Ray.inRange 0 far)
                                  (raycast o origin direction)) objects).
  set (L := flat_map (fun o => filter nonneg (raycast o origin direction))
                     objects).
  assert (Hin : forall x, In x Lf <-> In x L /\ x <= far)
    by (intros x; apply in_reported).
  split.
  - intros (h & t & E & Hlt).
    destruct (sort_head_least Lf h t E) as [Hh _].
    apply Hin in Hh. destruct Hh as [Hh _].
    destruct (Ray.sort L) as [| m t'] eqn:EL.
    + apply sort_nil in EL. rewrite EL in Hh. contradiction.
    + exists m. split; [reflexivity |].
      destruct (sort_head_least L m t' EL) as [_ Hmin].
      specialize (Hmin h Hh). lra.
  - intros (d & E & Hlt).
    destruct (Ray.sort L) as [| m t'] eqn:EL; [discriminate |].
    cbn in E. injection E as ->.
    destruct (sort_head_least L d t' EL) as [Hd _].
    assert (Hdf : In d Lf) by (apply Hin; split; [exact Hd | lra]).
    destruct (Ray.sort Lf) as [| h t] eqn:ELf.
    + apply sort_nil in ELf. rewrite ELf in Hdf. contradiction.
    + exists h, t. split; [reflexivity |].
      destruct (sort_head_least Lf h t ELf) as [_ Hmin].
      specialize (Hmin d Hdf). lra.
Qed.

Lemma rejects_iff (previousPosition attempted : Vector3) (s : Controls) :
  colliderTargets s <> [] ->
  0 < Vec.length (Vec.sub attempted previousPosition) ->
  (rejects previousPosition attempted s = true <->
   exists d,
     nearestHit previousPosition
       (Vec.normalize (Vec.sub attempted previousPosition))
       (colliderTargets s) = Some d /\
     d < Vec.length (Vec.sub attempted previousPosition) + colliderRadius s).
Proof.
  intros Hc Hd. rewrite <- first_hit_iff_nearest.
  unfold rejects, guardHits.
  destruct (colliderTargets s) as [| c cs] eqn:Ec; [contradiction |].
  rewrite <- Ec.
  destruct (Rlt_dec 0 (Vec.length (Vec.sub attempted previousPosition)));
    [| contradiction].
  destruct (Ray.intersectObjects _ _ _ _ _) as [| h t].
  - split; [discriminate | intros (h & t & E & _); discriminate].
  - destruct (Rlt_dec h _) as [Hlt | Hge].
    + split; [| reflexivity]. intros _. now exists h, t.
    + split; [discriminate |]. intros (h' & t' & E & Hlt).
      injection E as -> ->. contradiction.
Qed.

(** ** The collision guard *)

Lemma setFromEuler_noRotation : Quat.setFromEuler noRotation = Quat.identity.
Proof.
  unfold Quat.setFromEuler, noRotation, Quat.identity. cbn.
  replace (0 / 2) with 0 by field. rewrite sin_0, cos_0. f_equal; ring.
Qed.

Lemma applyQuaternion_identity (v : Vector3) :
  Vec3Rot.applyQuaternion v Quat.identity = v.
Proof. apply vec3_eq; cbn; ring. Qed.

Lemma forwardVector_unrotated (s : Controls) :
  flyMode (state s) = true -> rotation (camera s) = noRotation ->
  forwardVector s = vec3 0 0 (-1).
Proof.
  intros Hf Hr. unfold forwardVector, Vec3Rot.applyEuler.
  now rewrite Hf, Hr, setFromEuler_noRotation, applyQuaternion_identity.
Qed.

Lemma facingWall_direction (v : R) : direction (facingWall v) = vec3 0 0 (-1).
Proof.
  rewrite direction_forward_only.
  - now apply forwardVector_unrotated.
  - now apply forwardVector_fly_unit.
  - unfold inputX. cbn. ring.
  - unfold inputZ. cbn. ring.
  - unfold inputY. cbn. ring.
Qed.

Lemma facingWall_integrate (v : R) :
  integrate 1 (facingWall v) = vec3 0 1 (5 - v).
Proof.
  unfold integrate. rewrite facingWall_direction. cbn.
  apply vec3_eq; cbn; ring.
Qed.

Lemma facingWall_distance (v : R) :
  0 < v ->
  Vec.length (Vec.sub (integrate 1 (facingWall v))
                      (position (camera (facingWall v)))) = v.
Proof.
  intros Hv. rewrite facingWall_integrate.
  change (position (camera (facingWall v))) with (vec3 0 1 5).
  apply length_of_sq; [lra |]. unfold Vec.lengthSq. cbn. ring.
Qed.

(** A forward step of length [v] towards the wall 1.0 ahead is rolled back
    exactly when 1 < v + 0.35. *)
Lemma facingWall_update (v : R) :
  0 < v ->
  position (camera (update 1 (facingWall v))) =
    if Rlt_dec 1 (v + 0.35) then vec3 0 1 5 else vec3 0 1 (5 - v).
Proof.
  intros Hv. unfold update.
  change (fuseOrientation (facingWall v)) with (facingWall v).
  unfold moveAndCollide. rewrite facingWall_integrate.
  change (position (camera (facingWall v))) with (vec3 0 1 5).
  unfold rejects, guardHits.
  change (colliderTargets (facingWall v)) with [wallAtZ 4].
  change (colliderRadius (facingWall v)) with 0.35.
  replace (Vec.sub (vec3 0 1 (5 - v)) (vec3 0 1 5)) with (vec3 0 0 (- v))
    by (apply vec3_eq; cbn; ring).
  assert (El : Vec.length (vec3 0 0 (- v)) = v).
  { apply length_of_sq; [lra |]. unfold Vec.lengthSq. cbn. ring. }
  assert (En : Vec.normalize (vec3 0 0 (- v)) = vec3 0 0 (-1)).
  { unfold Vec.normalize, Vec.divideScalar, or_else. rewrite El.
    destruct (Req_dec_T v 0); [lra |]. apply vec3_eq; cbn; field; lra. }
  rewrite El, En.
  destruct (Rlt_dec 0 v); [| contradiction].
  unfold Ray.intersectObjects, wallAtZ. cbn.
  destruct (Req_dec_T (-1) 0); [lra |]. cbn.
  replace ((4 - 5) / -1) with 1 by field.
  unfold Ray.inRange.
  destruct (Rlt_dec 1 0); [lra |].
  destruct (Rlt_dec (v + 0.35) 1) as [Hfar | Hfar]; cbn.
  - destruct (Rlt_dec 1 (v + 0.35)); [lra | reflexivity].
  - destruct (Rlt_dec 1 (v + 0.35)); reflexivity.
Qed.

Lemma fuseOrientation_colliders (s : Controls) :
  colliderTargets (fuseOrientation s) = colliderTargets s /\
  colliderRadius (fuseOrientation s) = colliderRadius s /\
  position (camera (fuseOrientation s)) = position (camera s).
Proof. unfold fuseOrientation. break_branches; repeat split. Qed.

(** C3: with a collider registered and a nonzero displacement, [update]
    leaves the camera at the pre-step position exactly when the nearest hit
    of the ray cast from that position along the normalized displacement
    lies closer than the displacement length plus the clearance radius, and
    otherwise at the attempted position; facing a wall 1.0 ahead with radius
    0.35, a forward step of 0.9 is rolled back and one of 0.5 is taken. *)
Theorem collision_guard_rejects_iff :
  (forall (delta : R) (s : Controls),
     let previousPosition := position (camera s) in
     let attempted := integrate delta (fuseOrientation s) in
     let distance := Vec.length (Vec.sub attempted previousPosition) in
     colliderTargets s <> [] ->
     0 < distance ->
     (position (camera (update delta s)) = previousPosition <->
      exists d,
        nearestHit previousPosition
          (Vec.normalize (Vec.sub attempted previousPosition))
          (colliderTargets s) = Some d /\
        d < distance + colliderRadius s) /\
     (position (camera (update delta s)) = previousPosition \/
      position (camera (update delta s)) = attempted)) /\
  position (camera (update 1 (facingWall 0.9))) =
    position (camera (facingWall 0.9)) /\
  position (camera (update 1 (facingWall 0.5))) = vec3 0 1 4.5.
Proof.
  split; [| split].
  - intros delta s previousPosition attempted distance Hc Hd.
    destruct (fuseOrientation_colliders s) as (Ec & Er & Ep).
    assert (Hne : attempted <> previousPosition).
    { intros E. subst distance. rewrite E in Hd.
      replace (Vec.sub previousPosition previousPosition) with Vec.zero in Hd
        by (apply vec3_eq; cbn; ring).
      rewrite (proj2 (length_zero_iff Vec.zero) eq_refl) in Hd. lra. }
    pose proof (rejects_iff previousPosition attempted (fuseOrientation s))
      as Hiff.
    rewrite Ec, Er in Hiff. specialize (Hiff Hc Hd).
    unfold update, moveAndCollide. rewrite Ep.
    fold previousPosition. fold attempted.
    destruct (rejects previousPosition attempted (fuseOrientation s));
      cbn [camera set_camera position Cam.setPosition].
    + split; [| now left]. split; [intros _; now apply Hiff | reflexivity].
    + split; [| now right]. split.
      * intros E. contradiction.
      * intros H. apply Hiff in H. discriminate.
  - rewrite facingWall_update by lra.
    destruct (Rlt_dec 1 (0.9 + 0.35)); [reflexivity | lra].
  - rewrite facingWall_update by lra.
    destruct (Rlt_dec 1 (0.5 + 0.35)); [lra |].
    apply vec3_eq; cbn; lra.
Qed.

Lemma collision_guard_rejects_iff_witness :
  position (camera (update 1 (facingWall 0.9))) =
    position (camera (facingWall 0.9)) \/
  position (camera (update 1 (facingWall 0.9))) =
    integrate 1 (fuseOrientation (facingWall 0.9)).
Proof.
  apply (proj1 collision_guard_rejects_iff 1 (facingWall 0.9)).
  - discriminate.
  - change (fuseOrientation (facingWall 0.9)) with (facingWall 0.9).
    rewrite facingWall_distance; lra.
Defined.

(** ** The gyro path at a flat reading *)

Lemma sqrt_half_sq : sqrt 0.5 * sqrt 0.5 = 0.5.
Proof. apply sqrt_sqrt. lra. Qed.

Lemma atan2_0_1 : atan2 0 1 = 0.
Proof.
  unfold atan2. destruct (Rlt_dec 0 1); [| lra].
  replace (0 / 1) with 0 by field. apply atan_0.
Qed.

Lemma setFromQuaternion_q1 :
  Eul.setFromQuaternion q1 = mkEuler (- (PI / 2)) 0 0.
Proof.
  unfold Eul.setFromQuaternion, Eul.setFromRotationMatrix,
    makeRotationFromQuaternion, q1. cbn.
  pose proof sqrt_half_sq as Hh.
  replace (0 * (0 + 0) - sqrt 0.5 * (- sqrt 0.5 + - sqrt 0.5)) with 1 by lra.
  replace (- sqrt 0.5 * (0 + 0) - sqrt 0.5 * (0 + 0)) with 0 by ring.
  replace (1 - (0 * (0 + 0) + 0 * (0 + 0))) with 1 by ring.
  rewrite Rabs_R1.
  destruct (Rlt_dec 1 0.9999999); [lra |].
  unfold clamp. rewrite Rmin_left, Rmax_right by lra.
  rewrite asin_opp, asin_1, Ropp_0, atan2_0_1. reflexivity.
Qed.

Lemma multiply_identity_l (q : Quaternion) :
  Quat.multiply Quat.identity q = q.
Proof. destruct q. unfold Quat.multiply, Quat.identity. cbn. f_equal; ring. Qed.

Lemma multiply_identity_r (q : Quaternion) :
  Quat.multiply q Quat.identity = q.
Proof. destruct q. unfold Quat.multiply, Quat.identity. cbn. f_equal; ring. Qed.

Lemma setFromAxisAngle_zero (axis : Vector3) :
  Quat.setFromAxisAngle axis 0 = Quat.identity.
Proof.
  unfold Quat.setFromAxisAngle, Quat.identity.
  replace (0 / 2) with 0 by field. rewrite sin_0, cos_0. f_equal; ring.
Qed.

Lemma setObjectQuaternion_flat : setObjectQuaternion 0 0 0 0 = q1.
Proof.
  unfold setObjectQuaternion. rewrite Ropp_0.
  fold noRotation. rewrite setFromEuler_noRotation, setFromAxisAngle_zero.
  now rewrite multiply_identity_l, multiply_identity_r.
Qed.

Lemma deg2rad_0 : deg2rad 0 = 0.
Proof. unfold deg2rad. lra. Qed.

Lemma gyroFlat_facts :
  gyroEnabled (state gyroFlat) = true /\
  deviceOrientation gyroFlat = Some flatReading /\
  screenOrientation gyroFlat = 0 /\
  lookOffsetYaw gyroFlat = 0 /\ lookOffsetPitch gyroFlat = 0.
Proof. repeat split; reflexivity. Qed.

Lemma fuseOrientation_gyroFlat :
  camera (fuseOrientation gyroFlat) =
  mkCamera spawnPosition (mkEuler (- (PI / 2)) 0 0) q1.
Proof.
  unfold fuseOrientation.
  destruct gyroFlat_facts as (Hg & Hd & Hs & Hy & Hp).
  rewrite Hg, Hd, Hs, Hy, Hp. cbn [alpha beta gamma flatReading nullish].
  rewrite deg2rad_0, setObjectQuaternion_flat.
  fold noRotation. rewrite setFromEuler_noRotation, multiply_identity_r.
  cbn [set_camera camera]. unfold Cam.setQuaternion.
  rewrite setFromQuaternion_q1. reflexivity.
Qed.

Lemma update_rotation (delta : R) (s : Controls) :
  rotation (camera (update delta s)) = rotation (camera (fuseOrientation s)).
Proof.
  unfold update, moveAndCollide. now destruct (rejects _ _ _).
Qed.

Lemma fuseOrientation_gyro_off (s : Controls) :
  gyroEnabled (state s) = false -> fuseOrientation s = s.
Proof. intros H. unfold fuseOrientation. now rewrite H. Qed.

Lemma update_accumulators (delta : R) (s : Controls) :
  yaw (update delta s) = yaw s /\ pitch (update delta s) = pitch s.
Proof.
  unfold update, moveAndCollide, fuseOrientation.
  break_branches; split; reflexivity.
Qed.

Lemma pitch_bounds : pitchMin <= 0 <= pitchMax.
Proof. unfold pitchMin, pitchMax. pose proof PI2_1. lra. Qed.

Lemma clamp_between (v lo hi : R) : lo <= hi -> lo <= clamp v lo hi <= hi.
Proof.
  intros H. unfold clamp. split.
  - apply Rmax_l.
  - apply Rmax_lub; [exact H | apply Rmin_l].
Qed.

Lemma clamp_inside (v lo hi : R) : lo <= v <= hi -> clamp v lo hi = v.
Proof.
  intros [Hl Hh]. unfold clamp. rewrite Rmin_right, Rmax_right by lra.
  reflexivity.
Qed.

Lemma updateRotation_clamped (s : Controls) :
  pitchClamped (pitch (updateRotation s)) /\
  rotation (camera (updateRotation s)) =
    mkEuler (pitch (updateRotation s)) (yaw s) 0 /\
  yaw (updateRotation s) = yaw s.
Proof.
  unfold updateRotation. cbn. repeat split; try apply clamp_between;
    pose proof pitch_bounds; lra.
Qed.

(** C1, as stated, fails on the gyro path: with the phone lying flat the
    sensor quaternion points the camera straight down, and the pitch after
    [update] is -PI/2, outside the clamp range. *)
Lemma gyro_pitch_unclamped :
  ~ pitchStrictlyInside (ex (rotation (camera (update 1 gyroFlat)))).
Proof.
  rewrite update_rotation, fuseOrientation_gyroFlat. cbn.
  unfold pitchStrictlyInside, pitchMin. lra.
Qed.

(** C1, amended: the clamp belongs to the accumulator path.
    [updateRotation] leaves the pitch accumulator within the closed interval
    [-PI/2 + 0.05, PI/2 - 0.05] and writes it to the camera, so every mouse
    or touch look delta applied with gyro off leaves the camera pitch in that
    interval; [update] applies no clamp of its own: with gyro off it leaves
    the camera rotation and the accumulators as they are, so a clamped pitch
    stays clamped. *)
Theorem pitch_clamped_on_accumulator_path :
  (forall s : Controls,
     pitchClamped (pitch (updateRotation s)) /\
     ex (rotation (camera (updateRotation s))) = pitch (updateRotation s)) /\
  (forall (mx my : R) (s : Controls),
     isPointerLocked s = true -> gyroEnabled (state s) = false ->
     pitchClamped (ex (rotation (camera (onMouseMove mx my s))))) /\
  (forall (ev : PointerEvent) (tc : TouchControls) (s : Controls),
     sameId (pointerId ev) (lookPointerId tc) = true ->
     gyroEnabled (state s) = false ->
     pitchClamped (ex (rotation (camera (lookPadMove ev tc s))))) /\
  (forall (delta : R) (s : Controls),
     gyroEnabled (state s) = false ->
     rotation (camera (update delta s)) = rotation (camera s) /\
     pitch (update delta s) = pitch s /\
     (pitchClamped (ex (rotation (camera s))) ->
      pitchClamped (ex (rotation (camera (update delta s)))))).
Proof.
  split; [| split; [| split]].
  - intros s. destruct (updateRotation_clamped s) as (Hc & Hr & _).
    split; [exact Hc | now rewrite Hr].
  - intros mx my s Hl Hg. unfold onMouseMove. rewrite Hl, Hg. cbn [negb].
    match goal with
    | |- context [updateRotation ?t] =>
        destruct (updateRotation_clamped t) as (Hc & Hr & _)
    end.
    rewrite Hr. exact Hc.
  - intros ev tc s Hid Hg. unfold lookPadMove. rewrite Hid. cbn [negb].
    cbn [state set_touchControls]. rewrite Hg.
    match goal with
    | |- context [updateRotation ?t] =>
        destruct (updateRotation_clamped t) as (Hc & Hr & _)
    end.
    rewrite Hr. exact Hc.
  - intros delta s Hg.
    assert (Hrot : rotation (camera (update delta s)) = rotation (camera s))
      by now rewrite update_rotation, fuseOrientation_gyro_off.
    split; [exact Hrot |]. split; [apply update_accumulators |].
    now rewrite Hrot.
Qed.

Lemma pitch_clamped_on_accumulator_path_witness :
  pitchClamped
    (ex (rotation (camera (onMouseMove 10 5
                             (onPointerLockChange true
                                (freshControls desktop)))))).
Proof.
  apply (proj1 (proj2 pitch_clamped_on_accumulator_path) 10 5
           (onPointerLockChange true (freshControls desktop)));
    reflexivity.
Defined.

(** ** Switching gyro off *)

Lemma gyroSwitchedOff_facts :
  gyroEnabled (getState gyroSwitchedOff) = false /\
  yaw gyroSwitchedOff = 0 /\ pitch gyroSwitchedOff = 0 /\
  lookSpeed (state gyroSwitchedOff) = 0.002 /\
  touchControls gyroSwitchedOff =
    Some (mkTouchControls true None 0 0 0 (Some 1%Z) 0 0).
Proof. repeat split; reflexivity. Qed.

Lemma gyroSwitchedOff_rotation :
  rotation (camera gyroSwitchedOff) = mkEuler (- (PI / 2)) 0 0.
Proof.
  transitivity (rotation (camera (update 1 gyroFlat))); [reflexivity |].
  now rewrite update_rotation, fuseOrientation_gyroFlat.
Qed.

Lemma lookPadMove_accumulator (ev : PointerEvent) (tc : TouchControls)
    (s : Controls) :
  sameId (pointerId ev) (lookPointerId tc) = true ->
  gyroEnabled (state s) = false ->
  rotation (camera (lookPadMove ev tc s)) =
    mkEuler
      (clamp (pitch s - (clientY ev - lastLookY tc) * lookSpeed (state s) * 1.5)
             pitchMin pitchMax)
      (yaw s - (clientX ev - lastLookX tc) * lookSpeed (state s) * 1.5)
      0.
Proof.
  intros Hid Hg. unfold lookPadMove. rewrite Hid. cbn [negb].
  cbn [state set_touchControls]. rewrite Hg. reflexivity.
Qed.

(** C4 at the failing input: gyro mode is switched on, the phone lies flat
    and one frame turns the camera straight down (pitch -PI/2); gyro mode is
    switched off, after which [gyroEnabled] is false and the camera still
    looks down; the first touch on the look pad, even with a zero delta,
    writes the accumulators captured when gyro was switched on and the
    camera jumps back to pitch 0. *)
Theorem gyro_off_look_snaps_back :
  gyroEnabled (getState gyroSwitchedOff) = false /\
  rotation (camera gyroSwitchedOff) = mkEuler (- (PI / 2)) 0 0 /\
  rotation (camera (step (LookPadMoveEv thumb) gyroSwitchedOff)) =
    mkEuler 0 0 0.
Proof.
  destruct gyroSwitchedOff_facts as (Hg & Hy & Hp & Hl & Ht).
  split; [exact Hg |]. split; [exact gyroSwitchedOff_rotation |].
  cbn [step]. unfold onPad. rewrite Ht.
  rewrite lookPadMove_accumulator; [| reflexivity | exact Hg].
  rewrite Hy, Hp, Hl. cbn [clientX clientY thumb lastLookX lastLookY].
  rewrite clamp_inside.
  - f_equal; ring.
  - pose proof pitch_bounds. lra.
Qed.

(** * Further properties of the controller *)

(** ** Invariants of the reachable states *)

Lemma run_invariant (P : Controls -> Prop) :
  (forall e s, P s -> P (step e s)) ->
  forall events s, P s -> P (run events s).
Proof.
  intros Hstep events. induction events as [| e rest IH]; intros s H;
    [exact H |].
  cbn [run fold_left]. apply IH. now apply Hstep.
Qed.




Ltac unfold_handlers :=
  unfold whenFires, onPad, onPointerLockChange, onMouseMove, updateRotation,
    onKeyDown, onKeyUp, movePadDown, movePadMove, updateMove, resetMove,
    lookPadDown, lookPadMove, updateRotation, resetLook,
    handleDeviceOrientation, handleOrientationChange, dispose, update,
    moveAndCollide, fuseOrientation, setFlyMode, setSpeed, setLookSpeed,
    setColliders, setColliderRadius, setGyroEnabled, setGyroDenied,
    handleOrientationChange.





Lemma third_pi : - PI / 3 <= 0 <= PI / 3.
Proof. pose proof PI_RGT_0. lra. Qed.

Lemma step_lookOffsetBounded (e : Event) (s : Controls) :
  lookOffsetBounded s -> lookOffsetBounded (step e s).
Proof.
  unfold lookOffsetBounded. intros H.
  destruct e; cbn [step]; unfold_handlers; break_branches;
    cbn [lookOffsetPitch set_movement set_touchMovement set_camera
         set_touchControls set_yaw_pitch set_isPointerLocked set_state
         set_listeners set_deviceOrientation set_screenOrientation
         set_lookOffset set_colliderTargets set_colliderRadius fst];
    first [ exact H
          | apply clamp_between; pose proof PI_RGT_0; lra
          | apply third_pi ].
Qed.

(** X2: in every state reached from construction the look-offset pitch lies
    within [-PI/3, PI/3]: it starts at 0, is clamped on every look-pad move
    in gyro mode and is reset to 0 when gyro mode is switched on. *)
Theorem reachable_lookOffset_bounded (position0 : Vector3) (rotation0 : Euler)
    (browser : Browser) (events : list Event) :
  lookOffsetBounded
    (run events (createWalkFlyControls position0 rotation0 browser)).
Proof.
  apply run_invariant; [apply step_lookOffsetBounded |].
  unfold lookOffsetBounded. cbn. apply third_pi.
Qed.

(** ** The camera quaternion stays a rotation *)

Lemma multiply_normSq (a b : Quaternion) :
  Quat.normSq (Quat.multiply a b) = Quat.normSq a * Quat.normSq b.
Proof. unfold Quat.normSq, Quat.multiply. cbn. ring. Qed.

Lemma q1_unit : Quat.normSq q1 = 1.
Proof.
  unfold Quat.normSq, q1. cbn. pose proof sqrt_half_sq. lra.
Qed.

Lemma setFromAxisAngle_zee_unit (angle : R) :
  Quat.normSq (Quat.setFromAxisAngle zee angle) = 1.
Proof.
  unfold Quat.normSq, Quat.setFromAxisAngle, zee. cbn.
  pose proof (sin2_cos2 (angle / 2)) as H. unfold Rsqr in H. lra.
Qed.

Lemma setObjectQuaternion_unit (a b g o : R) :
  Quat.normSq (setObjectQuaternion a b g o) = 1.
Proof.
  unfold setObjectQuaternion.
  rewrite !multiply_normSq, setFromEuler_unit, q1_unit,
    setFromAxisAngle_zee_unit. ring.
Qed.

Lemma step_unitCamera (e : Event) (s : Controls) :
  unitCamera s -> unitCamera (step e s).
Proof.
  unfold unitCamera. intros H.
  destruct e; cbn [step]; unfold_handlers; break_branches;
    cbn [camera quaternion Cam.setRotation Cam.setQuaternion Cam.setPosition
         set_movement set_touchMovement set_camera
         set_touchControls set_yaw_pitch set_isPointerLocked set_state
         set_listeners set_deviceOrientation set_screenOrientation
         set_lookOffset set_colliderTargets set_colliderRadius fst];
    first [ exact H
          | apply setFromEuler_unit
          | rewrite multiply_normSq, setObjectQuaternion_unit,
              setFromEuler_unit; ring ].
Qed.

(** X3: in every state reached from construction the camera quaternion has
    unit length, whichever path wrote it: the accumulator path builds it
    from Euler angles, the gyro path multiplies unit quaternions. *)
Theorem reachable_camera_unit (position0 : Vector3) (rotation0 : Euler)
    (browser : Browser) (events : list Event) :
  unitCamera (run events (createWalkFlyControls position0 rotation0 browser)).
Proof.
  apply run_invariant; [apply step_unitCamera |].
  unfold unitCamera. cbn. apply setFromEuler_unit.
Qed.

(** ** Listeners *)

Lemma listener_eqb_eq (a b : Listener) : listener_eqb a b = true <-> a = b.
Proof.
  unfold listener_eqb. destruct a as [ta ya ha ca], b as [tb yb hb cb]. cbn.
  rewrite !andb_true_iff, String.eqb_eq, Bool.eqb_true_iff.
  split.
  - intros [[[Ht Hy] Hh] Hc]. subst.
    destruct ta, tb; try discriminate; destruct ha, hb; try discriminate;
      reflexivity.
  - intros E. injection E as -> -> -> ->.
    repeat split; [now destruct tb | now destruct hb].
Qed.

Lemma registered_In (l : Listener) (ls : list Listener) :
  Dom.registered l ls = true <-> In l ls.
Proof.
  unfold Dom.registered. rewrite existsb_exists. split.
  - intros (x & Hx & E). apply listener_eqb_eq in E. now subst.
  - intros H. exists l. split; [exact H | now apply listener_eqb_eq].
Qed.

Lemma registered_absent (l : Listener) (ls : list Listener) :
  ~ In l ls -> Dom.registered l ls = false.
Proof.
  intros H. destruct (Dom.registered l ls) eqn:E; [| reflexivity].
  apply registered_In in E. contradiction.
Qed.

Lemma addEventListener_In (t : Target) (type : string) (h : Handler)
    (capture : bool) (ls : list Listener) (l : Listener) :
  In l (Dom.addEventListener t type h capture ls) <->
  In l ls \/ l = mkListener t type h capture.
Proof.
  unfold Dom.addEventListener.
  destruct (Dom.registered _ ls) eqn:E.
  - apply registered_In in E. split; [now left |].
    intros [H | ->]; assumption.
  - rewrite in_app_iff. cbn. intuition.
Qed.

Lemma removeEventListener_In (t : Target) (type : string) (h : Handler)
    (capture : bool) (ls : list Listener) (l : Listener) :
  In l (Dom.removeEventListener t type h capture ls) <->
  In l ls /\ l <> mkListener t type h capture.
Proof.
  unfold Dom.removeEventListener. rewrite filter_In, negb_true_iff.
  split; intros [H N]; (split; [exact H |]).
  - intros ->. rewrite (proj2 (listener_eqb_eq _ _) eq_refl) in N.
    discriminate.
  - destruct (listener_eqb _ l) eqn:E; [| reflexivity].
    apply listener_eqb_eq in E. now subst.
Qed.

Lemma initialListeners_own (l : Listener) :
  In l initialListeners -> In l controllerListeners.
Proof.
  unfold initialListeners. rewrite !addEventListener_In. cbn.
  intuition (subst; auto).
Qed.

Lemma step_ownListeners (e : Event) (s : Controls) :
  ownListeners s -> ownListeners (step e s).
Proof.
  unfold ownListeners. intros H l.
  destruct e; cbn [step]; unfold_handlers; break_branches;
    cbn [listeners set_movement set_touchMovement set_camera
         set_touchControls set_yaw_pitch set_isPointerLocked set_state
         set_listeners set_deviceOrientation set_screenOrientation
         set_lookOffset set_colliderTargets set_colliderRadius fst];
    try apply H;
    rewrite ?addEventListener_In, ?removeEventListener_In;
    intros Hl; decompose [and or] Hl; subst;
    try (now apply H); cbn; auto 10.
Qed.

Lemma reachable_ownListeners (position0 : Vector3) (rotation0 : Euler)
    (browser : Browser) (events : list Event) :
  ownListeners (run events (createWalkFlyControls position0 rotation0 browser)).
Proof.
  apply run_invariant; [apply step_ownListeners |].
  intros l. apply initialListeners_own.
Qed.

Lemma dispose_listeners (s : Controls) (l : Listener) :
  ownListeners s -> In l (listeners (dispose s)) -> l = sensorListener.
Proof.
  intros Hown. unfold dispose.
  cbn [listeners set_touchControls set_listeners].
  rewrite !removeEventListener_In. intros H.
  decompose [and] H. clear H.
  match goal with Hin : In l (listeners s) |- _ => apply Hown in Hin; cbn in Hin;
    decompose [or] Hin end; subst; try reflexivity; try contradiction;
    exfalso; auto.
Qed.

Lemma step_onlySensorListener (e : Event) (s : Controls) :
  keepsGyroOff e = true -> onlySensorListener s ->
  onlySensorListener (step e s).
Proof.
  unfold onlySensorListener. intros He H l.
  destruct e; try (destruct enabled; [discriminate He |]);
    cbn [step]; unfold_handlers; break_branches;
    cbn [listeners set_movement set_touchMovement set_camera
         set_touchControls set_yaw_pitch set_isPointerLocked set_state
         set_listeners set_deviceOrientation set_screenOrientation
         set_lookOffset set_colliderTargets set_colliderRadius fst];
    try apply H;
    rewrite ?removeEventListener_In;
    intros Hl; decompose [and] Hl; now apply H.
Qed.

Lemma run_onlySensorListener (events : list Event) (s : Controls) :
  forallb keepsGyroOff events = true -> onlySensorListener s ->
  onlySensorListener (run events s).
Proof.
  revert s. induction events as [| e rest IH]; intros s He H; [exact H |].
  cbn [forallb] in He. apply andb_true_iff in He as [He Hrest].
  cbn [run fold_left]. apply IH; [exact Hrest |].
  now apply step_onlySensorListener.
Qed.

Lemma onlySensorListener_silent (s : Controls) (t : Target) (type : string)
    (h : Handler) :
  onlySensorListener s -> h <> handleDeviceOrientationH ->
  Dom.fires t type h (listeners s) = false.
Proof.
  intros Hs Hh. unfold Dom.fires.
  rewrite !registered_absent; [reflexivity | |];
    intros Hin; apply Hs in Hin; inversion Hin; congruence.
Qed.

(** X4: once a controller reached from its construction is disposed, no
    keyboard, mouse, pointer-lock or orientation-change event changes it
    any more, whatever events and calls come in between, as long as no
    call [setGyroEnabled(true)] runs to its end after the disposal (one
    made before it whose permission prompt is answered after it does).
    Nothing is claimed of the joystick pads: [dispose] takes them out of
    the document but removes none of their listeners. *)
Theorem disposed_ignores_input (position0 : Vector3) (rotation0 : Euler)
    (browser : Browser) (events later : list Event) (e : Event) :
  isGlobalInput e = true ->
  forallb keepsGyroOff later = true ->
  let s := run later
             (dispose (run events
                         (createWalkFlyControls position0 rotation0 browser)))
  in
  step e s = s.
Proof.
  intros He Hlater. cbn zeta.
  pose proof (reachable_ownListeners position0 rotation0 browser events)
    as Hown.
  assert (Hs : onlySensorListener
                 (run later
                    (dispose
                       (run events
                          (createWalkFlyControls position0 rotation0
                             browser))))).
  { apply run_onlySensorListener; [exact Hlater |].
    intros l. now apply dispose_listeners. }
  destruct e; try discriminate He; cbn [step];
    unfold whenFires; rewrite onlySensorListener_silent; try reflexivity;
    try exact Hs; discriminate.
Qed.

Lemma disposed_ignores_input_witness :
  step (KeyDownEv "KeyW")
    (run [UpdateCall 1; SetGyroEnabledCall false NoRequestPermission None]
       (dispose (run [KeyDownEv "KeyD"] (freshControls phone)))) =
  run [UpdateCall 1; SetGyroEnabledCall false NoRequestPermission None]
    (dispose (run [KeyDownEv "KeyD"] (freshControls phone))).
Proof.
  apply (disposed_ignores_input spawnPosition noRotation phone
           [KeyDownEv "KeyD"]
           [UpdateCall 1; SetGyroEnabledCall false NoRequestPermission None]
           (KeyDownEv "KeyW")); reflexivity.
Defined.

(** ** Switching gyro mode *)

Lemma fires_sensor (ls : list Listener) :
  In sensorListener ls ->
  Dom.fires Window "deviceorientation" handleDeviceOrientationH ls = true.
Proof.
  intros H. unfold Dom.fires. apply orb_true_iff. right.
  now apply registered_In.
Qed.

Lemma setGyroEnabled_success (permission : Permission) (angle : option R)
    (s : Controls) :
  gyroAvailable (state s) = true -> granted permission = true ->
  fst (setGyroEnabled true permission angle s) =
  set_lookOffset 0 0
    (set_yaw_pitch (ey (rotation (camera s))) (ex (rotation (camera s)))
       (set_listeners
          (Dom.addEventListener Window "orientationchange"
             handleOrientationChangeH false
             (Dom.addEventListener Window "deviceorientation"
                handleDeviceOrientationH true (listeners s)))
          (handleOrientationChange angle
             (set_state (set_gyroEnabled true (state s)) s)))).
Proof.
  intros Ha Hg. unfold setGyroEnabled. rewrite Ha. cbn [negb].
  destruct permission as [| answer |]; cbn in Hg;
    [reflexivity | now rewrite Hg | discriminate].
Qed.

(** X5: [setGyroEnabled] resolves to true exactly when gyro was requested,
    the device-orientation API is available and the permission step lets it
    through; in every case the value it resolves to is the [gyroEnabled]
    flag it leaves behind, and a request to disable never depends on the
    permission API. *)
Theorem setGyroEnabled_reports_state (enabled : bool)
    (permission : Permission) (angle : option R) (s : Controls) :
  snd (setGyroEnabled enabled permission angle s) =
    enabled && gyroAvailable (state s) && granted permission /\
  gyroEnabled (getState (fst (setGyroEnabled enabled permission angle s))) =
    snd (setGyroEnabled enabled permission angle s) /\
  setGyroEnabled false permission angle s =
    setGyroEnabled false NoRequestPermission angle s.
Proof.
  unfold setGyroEnabled, setGyroDenied, granted.
  destruct (gyroAvailable (state s)), enabled; cbn [negb andb];
    try (repeat split; reflexivity);
    destruct permission as [| answer |]; try (repeat split; reflexivity);
    destruct (String.eqb answer "granted"); repeat split; reflexivity.
Qed.

(** X6: when [setGyroEnabled(true)] succeeds, the accumulators take the
    camera's current Euler yaw and pitch, the look offset is zeroed, the
    screen angle is sampled, the camera itself is untouched, and from then
    on sensor readings and orientation changes reach the controller. *)
Theorem setGyroEnabled_success_effects (permission : Permission)
    (angle : option R) (s : Controls) :
  gyroAvailable (state s) = true -> granted permission = true ->
  let s' := fst (setGyroEnabled true permission angle s) in
  yaw s' = ey (rotation (camera s)) /\
  pitch s' = ex (rotation (camera s)) /\
  lookOffsetYaw s' = 0 /\ lookOffsetPitch s' = 0 /\
  screenOrientation s' = nullish angle 0 /\
  camera s' = camera s /\
  (forall ev, deviceOrientation (step (DeviceOrientationEv ev) s') = Some ev) /\
  (forall a, screenOrientation (step (OrientationChangeEv a) s') =
             nullish a 0).
Proof.
  intros Ha Hg. cbn zeta. rewrite (setGyroEnabled_success _ _ _ Ha Hg).
  repeat split.
  - intros ev. cbn [step]. unfold whenFires. rewrite fires_sensor;
      [reflexivity |].
    cbn [listeners set_lookOffset set_yaw_pitch set_listeners].
    rewrite !addEventListener_In. left. now right.
  - intros a. cbn [step]. unfold whenFires, Dom.fires.
    rewrite (proj2 (registered_In _ _)); [reflexivity |].
    cbn [listeners set_lookOffset set_yaw_pitch set_listeners].
    rewrite !addEventListener_In. now right.
Qed.

Lemma setGyroEnabled_success_effects_witness :
  let s' := fst (setGyroEnabled true NoRequestPermission (Some 90)
                   (freshControls phone)) in
  yaw s' = ey (rotation (camera (freshControls phone))) /\
  pitch s' = ex (rotation (camera (freshControls phone))) /\
  lookOffsetYaw s' = 0 /\ lookOffsetPitch s' = 0 /\
  screenOrientation s' = nullish (Some 90) 0 /\
  camera s' = camera (freshControls phone) /\
  (forall ev, deviceOrientation (step (DeviceOrientationEv ev) s') = Some ev) /\
  (forall a, screenOrientation (step (OrientationChangeEv a) s') =
             nullish a 0).
Proof.
  apply (setGyroEnabled_success_effects NoRequestPermission (Some 90)
           (freshControls phone)); reflexivity.
Defined.

Lemma sensor_survives_dispose (s : Controls) :
  In sensorListener (listeners s) ->
  In sensorListener (listeners (dispose s)).
Proof.
  intros H. unfold dispose. cbn [listeners set_touchControls set_listeners].
  rewrite !removeEventListener_In. repeat split; try exact H; discriminate.
Qed.

Lemma sensor_survives_disable (permission : Permission) (angle : option R)
    (s : Controls) :
  gyroAvailable (state s) = true ->
  In sensorListener (listeners s) ->
  In sensorListener
     (listeners (fst (setGyroEnabled false permission angle s))).
Proof.
  intros Ha H. unfold setGyroEnabled. rewrite Ha.
  cbn [negb fst listeners set_listeners].
  rewrite !removeEventListener_In. repeat split; try exact H; discriminate.
Qed.

(** X7: the sensor listener is registered for the capture phase but removed
    without the capture flag, so it is never removed: after a successful
    [setGyroEnabled(true)], device-orientation events are still stored by
    the controller after [dispose()] and after [setGyroEnabled(false)]. *)
Theorem sensor_listener_survives (permission : Permission) (angle : option R)
    (s0 : Controls) (ev : DeviceOrientationEvent) :
  gyroAvailable (state s0) = true -> granted permission = true ->
  let s := fst (setGyroEnabled true permission angle s0) in
  deviceOrientation (step (DeviceOrientationEv ev) (dispose s)) = Some ev /\
  forall permission' angle',
    deviceOrientation
      (step (DeviceOrientationEv ev)
            (fst (setGyroEnabled false permission' angle' s))) = Some ev.
Proof.
  intros Ha Hg. cbn zeta.
  assert (Hin : In sensorListener
                   (listeners (fst (setGyroEnabled true permission angle s0)))).
  { rewrite (setGyroEnabled_success _ _ _ Ha Hg).
    cbn [listeners set_lookOffset set_yaw_pitch set_listeners].
    rewrite !addEventListener_In. left. now right. }
  assert (Ha' : gyroAvailable
                  (state (fst (setGyroEnabled true permission angle s0)))
                = true).
  { rewrite (setGyroEnabled_success _ _ _ Ha Hg). exact Ha. }
  split.
  - cbn [step]. unfold whenFires.
    rewrite fires_sensor; [reflexivity | now apply sensor_survives_dispose].
  - intros permission' angle'. cbn [step]. unfold whenFires.
    rewrite fires_sensor; [reflexivity |].
    now apply sensor_survives_disable.
Qed.

Lemma sensor_listener_survives_witness :
  let s := fst (setGyroEnabled true (Resolves "granted") None
                  (freshControls phone)) in
  deviceOrientation (step (DeviceOrientationEv flatReading) (dispose s))
    = Some flatReading /\
  forall permission' angle',
    deviceOrientation
      (step (DeviceOrientationEv flatReading)
            (fst (setGyroEnabled false permission' angle' s)))
    = Some flatReading.
Proof.
  apply (sensor_listener_survives (Resolves "granted") None
           (freshControls phone) flatReading); reflexivity.
Defined.

(** ** Joystick pointers *)



(** ** Frames that do not move *)

Lemma set_camera_same (s : Controls) (p : Vector3) :
  p = position (camera s) ->
  set_camera (Cam.setPosition (camera s) p) s = s.
Proof. intros ->. destruct s as [? ? ? ? ? ? ? ? ? ? ? ? ? [? ? ?] ? ?]. reflexivity. Qed.

Lemma unitClamp_zero : unitClamp Vec.zero = Vec.zero.
Proof.
  unfold unitClamp. destruct (Rlt_dec 1 (Vec.lengthSq Vec.zero)) as [H | _];
    [| reflexivity].
  unfold Vec.lengthSq in H. cbn in H. lra.
Qed.

Lemma direction_no_input (s : Controls) :
  inputX s = 0 -> inputZ s = 0 ->
  (flyMode (state s) = true -> inputY s = 0) ->
  direction s = Vec.zero.
Proof.
  intros Hx Hz Hy. unfold direction, rawDirection. rewrite Hx, Hz.
  set (d := Vec.addScaledVector _ _ _).
  assert (Hd : d = Vec.zero) by (apply vec3_eq; cbn; ring).
  rewrite Hd. destruct (flyMode (state s)).
  - rewrite (Hy eq_refl).
    replace (Vec.setY Vec.zero (vy Vec.zero + 0)) with Vec.zero
      by (apply vec3_eq; cbn; ring).
    apply unitClamp_zero.
  - apply unitClamp_zero.
Qed.

Lemma stepVector_zero (delta : R) (s : Controls) :
  speed (state s) * delta = 0 \/ direction s = Vec.zero ->
  stepVector delta s = Vec.zero.
Proof.
  unfold stepVector. intros [H | H]; rewrite H; apply vec3_eq; cbn; ring.
Qed.

Lemma rejects_no_move (p : Vector3) (s : Controls) : rejects p p s = false.
Proof.
  unfold rejects. destruct (colliderTargets s); [reflexivity |].
  replace (Vec.sub p p) with Vec.zero by (apply vec3_eq; cbn; ring).
  rewrite (proj2 (length_zero_iff Vec.zero) eq_refl).
  destruct (Rlt_dec 0 0); [lra | reflexivity].
Qed.

(** X9: with gyro off, a frame in which nothing is pressed, or in which
    speed * delta is 0, leaves the whole controller unchanged, camera
    included, provided walk mode already has the camera at walk height; no
    ray is cast. *)
Theorem idle_frame_unchanged (delta : R) (s : Controls) :
  gyroEnabled (state s) = false ->
  walkPinned s ->
  speed (state s) * delta = 0 \/
  (inputX s = 0 /\ inputZ s = 0 /\
   (flyMode (state s) = true -> inputY s = 0)) ->
  update delta s = s.
Proof.
  intros Hg Hw Hidle. unfold update.
  rewrite (fuseOrientation_gyro_off s Hg). unfold moveAndCollide.
  assert (Hstep : stepVector delta s = Vec.zero).
  { apply stepVector_zero. destruct Hidle as [H | (Hx & Hz & Hy)];
      [now left | right; now apply direction_no_input]. }
  assert (Hint : integrate delta s = position (camera s)).
  { unfold integrate. unfold stepVector, Vec.multiplyScalar in Hstep.
    injection Hstep as Ex Ey Ez.
    destruct (flyMode (state s)) eqn:Hf; cbn [negb].
    - apply vec3_eq; cbn; lra.
    - specialize (Hw Hf). apply vec3_eq; cbn; lra. }
  rewrite Hint, rejects_no_move. now apply set_camera_same.
Qed.

Lemma idle_frame_unchanged_witness :
  update 0.016 (freshControls desktop) = freshControls desktop.
Proof.
  apply (idle_frame_unchanged 0.016 (freshControls desktop)).
  - reflexivity.
  - apply createWalkFlyControls_pinned.
  - right. unfold inputX, inputZ, inputY. cbn. repeat split; intros; ring.
Defined.

(** ** Horizontal and vertical motion *)

Lemma normalize_vy_zero (v : Vector3) : vy v = 0 -> vy (Vec.normalize v) = 0.
Proof.
  intros H. unfold Vec.normalize, Vec.divideScalar. cbn. rewrite H. ring.
Qed.

Lemma rightVector_horizontal (s : Controls) : vy (rightVector s) = 0.
Proof.
  unfold rightVector. apply normalize_vy_zero. cbn. ring.
Qed.

Lemma rightVector_orthogonal (s : Controls) :
  vx (rightVector s) * vx (forwardVector s)
  + vy (rightVector s) * vy (forwardVector s)
  + vz (rightVector s) * vz (forwardVector s) = 0.
Proof.
  unfold rightVector, Vec.normalize, Vec.divideScalar. cbn. ring.
Qed.

Lemma unitClamp_vy_zero (d : Vector3) : vy d = 0 -> vy (unitClamp d) = 0.
Proof.
  intros H. unfold unitClamp. destruct (Rlt_dec 1 (Vec.lengthSq d));
    [now apply normalize_vy_zero | exact H].
Qed.

Lemma fuseOrientation_inputs (s : Controls) :
  state (fuseOrientation s) = state s /\
  movement (fuseOrientation s) = movement s /\
  touchMovement (fuseOrientation s) = touchMovement s.
Proof. unfold fuseOrientation. break_branches; repeat split. Qed.

Lemma update_position_cases (delta : R) (s : Controls) :
  position (camera (update delta s)) = position (camera s) \/
  position (camera (update delta s)) = integrate delta (fuseOrientation s).
Proof.
  destruct (fuseOrientation_colliders s) as (_ & _ & Hp).
  unfold update, moveAndCollide. destruct (rejects _ _ _); cbn; auto.
Qed.

(** X10: the strafe axis is horizontal and perpendicular to the forward
    vector in both modes, so in fly mode a frame with strafe input only
    (no forward and no vertical input) never changes the camera's height,
    whatever the camera's pitch. *)
Theorem strafe_keeps_height (delta : R) (s : Controls) :
  vy (rightVector s) = 0 /\
  vx (rightVector s) * vx (forwardVector s)
  + vy (rightVector s) * vy (forwardVector s)
  + vz (rightVector s) * vz (forwardVector s) = 0 /\
  (flyMode (state s) = true -> inputZ s = 0 -> inputY s = 0 ->
   vy (position (camera (update delta s))) = vy (position (camera s))).
Proof.
  split; [apply rightVector_horizontal |].
  split; [apply rightVector_orthogonal |].
  intros Hf Hz Hy.
  destruct (fuseOrientation_inputs s) as (Es & Em & Et).
  destruct (fuseOrientation_colliders s) as (_ & _ & Ep).
  destruct (update_position_cases delta s) as [E | E]; rewrite E;
    [reflexivity |].
  set (s1 := fuseOrientation s) in *.
  assert (Hd : vy (direction s1) = 0).
  { unfold direction. apply unitClamp_vy_zero. unfold rawDirection.
    rewrite Es, Hf. unfold inputZ, inputY in *. rewrite Em, Et, Hz, Hy.
    unfold Vec.addScaledVector, Vec.setY, Vec.zero. cbn [vx vy vz].
    rewrite rightVector_horizontal. ring. }
  unfold integrate. rewrite Es, Hf. cbn [negb].
  unfold Vec.addScaledVector. cbn [vx vy vz]. rewrite Hd, Ep. ring.
Qed.

Lemma strafe_keeps_height_witness :
  vy (position (camera (update 1 (onKeyDown "KeyD" (freshControls desktop)))))
  = vy (position (camera (onKeyDown "KeyD" (freshControls desktop)))).
Proof.
  apply (proj2 (proj2 (strafe_keeps_height 1
                         (onKeyDown "KeyD" (freshControls desktop))))).
  - reflexivity.
  - unfold inputZ. cbn. ring.
  - unfold inputY. cbn. ring.
Defined.

Lemma forwardVector_walk_horizontal (s : Controls) :
  flyMode (state s) = false -> vy (forwardVector s) = 0.
Proof.
  intros H. unfold forwardVector. rewrite H. apply normalize_vy_zero.
  reflexivity.
Qed.

Lemma update_walk_movement (delta : R) (m : Movement) (s : Controls) :
  flyMode (state s) = false ->
  forward m = forward (movement s) -> backward m = backward (movement s) ->
  left m = left (movement s) -> right m = right (movement s) ->
  camera (update delta (set_movement m s)) = camera (update delta s).
Proof.
  intros Hf H1 H2 H3 H4.
  assert (Hfuse : fuseOrientation (set_movement m s) =
                  set_movement m (fuseOrientation s)).
  { unfold fuseOrientation. cbn [state set_movement deviceOrientation
      screenOrientation lookOffsetPitch lookOffsetYaw camera].
    break_branches; reflexivity. }
  destruct (fuseOrientation_inputs s) as (Es & Em & Et).
  unfold update. rewrite Hfuse. set (s1 := fuseOrientation s) in *.
  assert (Hdir : direction (set_movement m s1) = direction s1).
  { unfold direction, rawDirection, rightVector, forwardVector, inputX,
      inputZ. cbn [state set_movement movement touchMovement camera].
    rewrite Es, Hf, Em, H1, H2, H3, H4. reflexivity. }
  assert (Hint : integrate delta (set_movement m s1) = integrate delta s1).
  { unfold integrate. rewrite Hdir. reflexivity. }
  unfold moveAndCollide. rewrite Hint.
  cbn [camera set_movement].
  replace (rejects (position (camera s1)) (integrate delta s1)
             (set_movement m s1))
    with (rejects (position (camera s1)) (integrate delta s1) s1)
    by reflexivity.
  destruct (rejects _ _ s1); reflexivity.
Qed.

(** X11: in walk mode the movement direction has no vertical component,
    and the up and down flags play no part in a frame: two states that
    differ only in those flags leave the camera in the same place. *)
Theorem walk_ignores_vertical_keys (delta : R) (m : Movement) (s : Controls) :
  flyMode (state s) = false ->
  vy (direction s) = 0 /\
  (forward m = forward (movement s) -> backward m = backward (movement s) ->
   left m = left (movement s) -> right m = right (movement s) ->
   camera (update delta (set_movement m s)) = camera (update delta s)).
Proof.
  intros Hf. split.
  - unfold direction. apply unitClamp_vy_zero. unfold rawDirection.
    rewrite Hf. unfold Vec.addScaledVector, Vec.zero. cbn [vx vy vz].
    rewrite rightVector_horizontal, (forwardVector_walk_horizontal s Hf).
    ring.
  - now apply update_walk_movement.
Qed.

Lemma walk_ignores_vertical_keys_witness :
  vy (direction (setFlyMode false (freshControls desktop))) = 0 /\
  camera (update 1 (onKeyDown "Space" (setFlyMode false (freshControls desktop))))
  = camera (update 1 (setFlyMode false (freshControls desktop))).
Proof.
  destruct (walk_ignores_vertical_keys 1
              (setKey "Space" 1
                 (movement (setFlyMode false (freshControls desktop))))
              (setFlyMode false (freshControls desktop)) eq_refl) as [H1 H2].
  split; [exact H1 |].
  apply H2; reflexivity.
Defined.

(** ** Look deltas accumulate *)

(** X12: mouse deltas add up: as long as the first move does not run the
    pitch into the clamp, two successive mouse moves leave the controller
    exactly where one move by the summed deltas does (whether or not mouse
    look is currently gated off). *)
Theorem mouse_deltas_accumulate (a b c d : R) (s : Controls) :
  pitchClamped (pitch s - c * lookSpeed (state s)) ->
  onMouseMove b d (onMouseMove a c s) = onMouseMove (a + b) (c + d) s.
Proof.
  intros Hc. unfold onMouseMove.
  destruct (isPointerLocked s) eqn:Hl; cbn [negb]; [| now rewrite Hl].
  destruct (gyroEnabled (state s)) eqn:Hg; [now rewrite Hl, Hg |].
  unfold updateRotation.
  cbn [isPointerLocked state set_camera set_yaw_pitch yaw pitch camera negb].
  rewrite Hl, Hg. cbn [negb].
  rewrite (clamp_inside (pitch s - c * lookSpeed (state s))) by exact Hc.
  replace (yaw s - (a + b) * lookSpeed (state s))
    with (yaw s - a * lookSpeed (state s) - b * lookSpeed (state s)) by ring.
  replace (pitch s - (c + d) * lookSpeed (state s))
    with (pitch s - c * lookSpeed (state s) - d * lookSpeed (state s))
    by ring.
  reflexivity.
Qed.

Lemma mouse_deltas_accumulate_witness :
  onMouseMove 4 6 (onMouseMove 10 5 (onPointerLockChange true
                                       (freshControls desktop)))
  = onMouseMove (10 + 4) (5 + 6) (onPointerLockChange true
                                    (freshControls desktop)).
Proof.
  apply (mouse_deltas_accumulate 10 4 5 6
           (onPointerLockChange true (freshControls desktop))).
  unfold pitchClamped, pitchMin, pitchMax. cbn. pose proof PI2_1. lra.
Defined.

(** ** The clearance radius *)

Lemma rejects_true_inv (p a : Vector3) (s : Controls) :
  rejects p a s = true ->
  colliderTargets s <> [] /\ 0 < Vec.length (Vec.sub a p).
Proof.
  unfold rejects. destruct (colliderTargets s); [discriminate |].
  destruct (Rlt_dec 0 (Vec.length (Vec.sub a p))); [| discriminate].
  intros _. split; [discriminate | assumption].
Qed.

Lemma rejects_radius_mono (p a : Vector3) (r r' : R) (s : Controls) :
  r <= r' ->
  rejects p a (set_colliderRadius r s) = true ->
  rejects p a (set_colliderRadius r' s) = true.
Proof.
  intros Hr H. destruct (rejects_true_inv _ _ _ H) as [Hc Hd].
  apply rejects_iff in H; [| exact Hc | exact Hd].
  apply rejects_iff; [exact Hc | exact Hd |].
  destruct H as (x & Hx & Hlt). exists x. split; [exact Hx |].
  cbn [colliderRadius set_colliderRadius] in *. lra.
Qed.

(** X13: enlarging the clearance radius never unblocks a step: if a frame
    leaves the camera at its pre-step position with radius r, the same
    frame leaves it there with any radius r' >= r. *)
Theorem larger_radius_still_blocks (delta r r' : R) (s : Controls) :
  r <= r' ->
  position (camera (update delta (setColliderRadius r s))) =
    position (camera s) ->
  position (camera (update delta (setColliderRadius r' s))) =
    position (camera s).
Proof.
  intros Hr H.
  assert (Hfuse : forall x, fuseOrientation (setColliderRadius x s) =
                            set_colliderRadius x (fuseOrientation s)).
  { intros x. unfold fuseOrientation, setColliderRadius.
    cbn [state set_colliderRadius deviceOrientation screenOrientation
         lookOffsetPitch lookOffsetYaw camera].
    break_branches; reflexivity. }
  destruct (fuseOrientation_colliders s) as (_ & _ & Ep).
  unfold update in *. rewrite Hfuse in *.
  set (s1 := fuseOrientation s) in *.
  unfold moveAndCollide in *.
  change (position (camera (set_colliderRadius r s1)))
    with (position (camera s1)) in H.
  change (position (camera (set_colliderRadius r' s1)))
    with (position (camera s1)).
  change (integrate delta (set_colliderRadius r s1))
    with (integrate delta s1) in H.
  change (integrate delta (set_colliderRadius r' s1))
    with (integrate delta s1).
  destruct (rejects (position (camera s1)) (integrate delta s1)
              (set_colliderRadius r s1)) eqn:E.
  - rewrite (rejects_radius_mono _ _ r r' s1 Hr E). cbn. exact Ep.
  - cbn in H. destruct (rejects _ _ (set_colliderRadius r' s1)); cbn;
      [exact Ep | exact H].
Qed.

Lemma larger_radius_still_blocks_witness :
  position (camera (update 1 (setColliderRadius 0.5 (facingWall 0.9)))) =
    position (camera (facingWall 0.9)).
Proof.
  apply (larger_radius_still_blocks 1 0.35 0.5 (facingWall 0.9)).
  - lra.
  - change (setColliderRadius 0.35 (facingWall 0.9)) with (facingWall 0.9).
    rewrite facingWall_update by lra.
    destruct (Rlt_dec 1 (0.9 + 0.35)); [reflexivity | lra].
Defined.

(** * Properties of the scene helpers *)

(** ** Traversal *)

Lemma obj_induction (P : Obj.t -> Prop) :
  (forall n v p s l e cs, Forall P cs -> P (Obj.make n v p s l e cs)) ->
  forall o, P o.
Proof.
  intros H. fix IH 1. intros [n v p s l e cs]. apply H.
  induction cs as [| c rest IHcs]; constructor; [apply IH | exact IHcs].
Qed.

Lemma traversal_eq (o : Obj.t) :
  Obj.traversal o = o :: flat_map Obj.traversal (Obj.children o).
Proof.
  destruct o as [n v p s l e cs]. cbn [Obj.traversal Obj.children].
  apply f_equal.
  induction cs as [| c rest IH]; cbn [flat_map]; [reflexivity |].
  now rewrite <- IH.
Qed.

Lemma traversal_self (o : Obj.t) : In o (Obj.traversal o).
Proof. rewrite traversal_eq. now left. Qed.

(** ** findFirstByName *)

Lemma visitFind_found (name : string) (l : list Obj.t) (x : Obj.t) :
  fold_left (visitFind name) l (Some x) = Some x.
Proof. induction l as [| a l IH]; cbn; [reflexivity | exact IH]. Qed.

Lemma visitFind_find (name : string) (l : list Obj.t) :
  fold_left (visitFind name) l None =
  find (fun o => String.eqb (Obj.name o) name) l.
Proof.
  induction l as [| a l IH]; cbn; [reflexivity |].
  destruct (String.eqb (Obj.name a) name); [apply visitFind_found | exact IH].
Qed.

Lemma find_app_first {A : Type} (p : A -> bool) (l1 l2 : list A) :
  find p (l1 ++ l2) =
  match find p l1 with Some x => Some x | None => find p l2 end.
Proof.
  induction l1 as [| a l1 IH]; cbn; [reflexivity |].
  destruct (p a); [reflexivity | exact IH].
Qed.

(** X14: [findFirstByName] returns the first object, in traversal order
    over the models in order, whose name equals [name]: the object it
    returns carries that name and belongs to one of the models, and it
    returns nothing exactly when no object of any model has that name. *)
Theorem findFirstByName_first (models : list LoadedModel) (name : string) :
  let all := flat_map (fun m => Obj.traversal (object m)) models in
  findFirstByName models name =
    find (fun o => String.eqb (Obj.name o) name) all /\
  (forall o, findFirstByName models name = Some o ->
             Obj.name o = name /\ In o all) /\
  (findFirstByName models name = None <->
   forall o, In o all -> Obj.name o <> name).
Proof.
  cbn zeta.
  assert (E : findFirstByName models name =
              find (fun o => String.eqb (Obj.name o) name)
                   (flat_map (fun m => Obj.traversal (object m)) models)).
  { induction models as [| m rest IH]; cbn [findFirstByName flat_map];
      [reflexivity |].
    rewrite find_app_first, visitFind_find, IH.
    now destruct (find _ (Obj.traversal (object m))). }
  split; [exact E |]. rewrite E. split.
  - intros o H. apply find_some in H. destruct H as [Hin Hn].
    apply String.eqb_eq in Hn. now split.
  - split.
    + intros H o Hin Hn.
      pose proof (find_none _ _ H o Hin) as F. cbn in F.
      apply String.eqb_neq in F. contradiction.
    + intros H. destruct (find _ _) as [o |] eqn:F; [| reflexivity].
      apply find_some in F. destruct F as [Hin Hn].
      apply String.eqb_eq in Hn. now elim (H o Hin).
Qed.

(** ** setModelsVisibility *)

Lemma setModelsVisibility_absent (models : list LoadedModel) (name : string)
    (v : bool) :
  (forall m, In m models -> lname m <> name) ->
  setModelsVisibility models name v = models.
Proof.
  induction models as [| m rest IH]; intros H; cbn; [reflexivity |].
  destruct (String.eqb_spec (lname m) name) as [E | _].
  - elim (H m (or_introl eq_refl) E).
  - f_equal. apply IH. intros x Hx. apply H. now right.
Qed.

(** X15: [setModelsVisibility] writes the visibility of the first model
    with the given name and of no other: models before it, models after it
    (same name or not) and everything else about the model itself are left
    as they were; when no model has the name the list is unchanged. *)
Theorem setModelsVisibility_first (pre post : list LoadedModel)
    (m : LoadedModel) (name : string) (v : bool) :
  (forall x, In x pre -> lname x <> name) ->
  (lname m = name ->
   setModelsVisibility (pre ++ m :: post) name v =
     pre ++ setObject (Obj.setVisible v (object m)) m :: post) /\
  ((forall x, In x (m :: post) -> lname x <> name) ->
   setModelsVisibility (pre ++ m :: post) name v = pre ++ m :: post).
Proof.
  intros Hpre. split.
  - intros Hm. induction pre as [| a pre IH]; cbn.
    + now rewrite (proj2 (String.eqb_eq _ _) Hm).
    + destruct (String.eqb_spec (lname a) name) as [E | _].
      * elim (Hpre a (or_introl eq_refl) E).
      * f_equal. apply IH. intros x Hx. apply Hpre. now right.
  - intros Hpost. apply setModelsVisibility_absent.
    intros x Hx. apply in_app_or in Hx. destruct Hx; auto.
Qed.

Lemma setModelsVisibility_first_witness :
  let room := mkLoadedModel "Room"
                (Obj.make "Scene" true Vec.zero (vec3 1 1 1) false EmptyBox [])
  in
  setModelsVisibility ([] ++ room :: [room]) "Room" false =
    [] ++ setObject (Obj.setVisible false (object room)) room :: [room].
Proof.
  apply (proj1 (setModelsVisibility_first [] _ _ "Room" false
                  (fun x (H : In x []) => match H with end))).
  reflexivity.
Defined.

(** ** collectByPrefix *)

Lemma collectIn_eq (prefix : string) (hide : bool) (n : string) (v : bool)
    (p s : Vector3) (l : bool) (e : Box3) (cs : list Obj.t) :
  collectIn prefix hide (Obj.make n v p s l e cs) =
  let rs := map (collectIn prefix hide) cs in
  if String.prefix prefix n then
    (Obj.make n (if hide then false else v) p s l e (map fst rs),
     Obj.make n (if hide then false else v) p s l e (map fst rs)
     :: flat_map snd rs)
  else (Obj.make n v p s l e (map fst rs), flat_map snd rs).
Proof.
  cbn [collectIn].
  match goal with
  | |- context [fst ?X] => set (visited := X)
  end.
  assert (E : visited = (map fst (map (collectIn prefix hide) cs),
                         flat_map snd (map (collectIn prefix hide) cs))).
  { subst visited. induction cs as [| c rest IH]; [reflexivity |].
    rewrite IH. cbn [map flat_map fst snd].
    now destruct (collectIn prefix hide c). }
  rewrite E. reflexivity.
Qed.

Lemma collected_children (prefix : string) (hide : bool) (cs : list Obj.t) :
  Forall (fun o => collected prefix hide o
                     (fst (collectIn prefix hide o))
                     (snd (collectIn prefix hide o))) cs ->
  let rs := map (collectIn prefix hide) cs in
  flat_map snd rs =
    filter (startsWith prefix) (flat_map Obj.traversal (map fst rs)) /\
  map Obj.name (flat_map Obj.traversal (map fst rs)) =
    map Obj.name (flat_map Obj.traversal cs) /\
  map Obj.visible (flat_map Obj.traversal (map fst rs)) =
    map (fun x => if hide && startsWith prefix x then false
                  else Obj.visible x) (flat_map Obj.traversal cs) /\
  (hide = false -> map fst rs = cs).
Proof.
  cbn zeta. induction 1 as [| c rest Hc _ IH]; cbn [map flat_map].
  - repeat split.
  - destruct Hc as (H1 & H2 & H3 & H4).
    destruct IH as (I1 & I2 & I3 & I4).
    rewrite filter_app, !map_app, <- H1, <- I1, H2, I2, H3, I3.
    repeat split. intros Hh. now rewrite (H4 Hh), (I4 Hh).
Qed.

Lemma collectIn_collected (prefix : string) (hide : bool) (o : Obj.t) :
  collected prefix hide o (fst (collectIn prefix hide o))
            (snd (collectIn prefix hide o)).
Proof.
  induction o as [n v p s l e cs IH] using obj_induction.
  destruct (collected_children prefix hide cs IH) as (C1 & C2 & C3 & C4).
  rewrite collectIn_eq. cbn zeta. unfold collected.
  destruct (String.prefix prefix n) eqn:Hp; cbn [fst snd];
    rewrite !traversal_eq; cbn [Obj.children filter map].
  all: unfold startsWith at 1; cbn [Obj.name Obj.visible]; rewrite ?Hp.
  all: assert (Hs : startsWith prefix (Obj.make n v p s l e cs)
                    = String.prefix prefix n) by reflexivity;
       rewrite Hs, Hp, <- C1, C2, C3.
  - repeat split; [now destruct hide |]. intros ->. now rewrite (C4 eq_refl).
  - rewrite andb_false_r. repeat split. intros Hh. now rewrite (C4 Hh).
Qed.

Lemma map_filter_name (prefix : string) (l : list Obj.t) :
  map Obj.name (filter (startsWith prefix) l) =
  filter (String.prefix prefix) (map Obj.name l).
Proof.
  induction l as [| a l IH]; cbn; [reflexivity |].
  unfold startsWith at 1. destruct (String.prefix prefix (Obj.name a)); cbn;
    now rewrite IH.
Qed.

Lemma collectByPrefix_collected (models : list LoadedModel) (prefix : string)
    (hide : bool) :
  let models' := fst (collectByPrefix models prefix hide) in
  let found := snd (collectByPrefix models prefix hide) in
  let all' := flat_map (fun m => Obj.traversal (object m)) models' in
  let all := flat_map (fun m => Obj.traversal (object m)) models in
  found = filter (startsWith prefix) all' /\
  map Obj.name all' = map Obj.name all /\
  map Obj.visible all' =
    map (fun x => if hide && startsWith prefix x then false
                  else Obj.visible x) all /\
  map lname models' = map lname models /\
  (hide = false -> models' = models).
Proof.
  cbn zeta. induction models as [| m rest IH]; cbn [collectByPrefix].
  - repeat split.
  - destruct (collectIn_collected prefix hide (object m))
      as (H1 & H2 & H3 & H4).
    destruct (collectIn prefix hide (object m)) as [o' found].
    destruct (collectByPrefix rest prefix hide) as [rest' found'].
    cbn [fst snd] in *. destruct IH as (I1 & I2 & I3 & I4 & I5).
    cbn [flat_map map object setObject lname].
    rewrite filter_app, !map_app, <- H1, <- I1, H2, I2, H3, I3, I4.
    repeat split. intros Hh. rewrite (H4 Hh), (I5 Hh). now destruct m.
Qed.

Lemma nth_map_agree {A B : Type} (f g : A -> B) (l l' : list A) (i : nat)
    (d : A) :
  map f l' = map g l -> (i < List.length l')%nat ->
  f (nth i l' d) = g (nth i l d).
Proof.
  revert l i. induction l' as [| a l' IH]; intros l i E Hi; [inversion Hi |].
  destruct l as [| b l]; [discriminate |]. cbn in E. injection E as E1 E2.
  destruct i as [| i]; cbn; [exact E1 |].
  apply IH; [exact E2 | cbn in Hi; apply Nat.succ_lt_mono; exact Hi].
Qed.

(** X16: [collectByPrefix] returns, in traversal order, exactly the objects
    of the scene whose name starts with the prefix: the names it returns
    are the prefixed names of the scene, in order, so it returns an empty
    array exactly when no object carries the prefix.  No name and no model
    entry is changed; without [hide] the scene is left as it was; with
    [hide] every returned object is invisible and every other object keeps
    its visibility. *)
Theorem collectByPrefix_spec (models : list LoadedModel) (prefix : string)
    (hide : bool) :
  let models' := fst (collectByPrefix models prefix hide) in
  let found := snd (collectByPrefix models prefix hide) in
  let all' := flat_map (fun m => Obj.traversal (object m)) models' in
  let all := flat_map (fun m => Obj.traversal (object m)) models in
  found = filter (startsWith prefix) all' /\
  map Obj.name found = filter (String.prefix prefix) (map Obj.name all) /\
  (found = [] <-> forall o, In o all -> startsWith prefix o = false) /\
  map lname models' = map lname models /\
  (hide = false -> models' = models) /\
  (hide = true ->
   (forall o, In o found -> Obj.visible o = false) /\
   map Obj.visible all' =
     map (fun x => if startsWith prefix x then false else Obj.visible x) all).
Proof.
  cbn zeta.
  destruct (collectByPrefix_collected models prefix hide)
    as (H1 & H2 & H3 & H4 & H5).
  cbn zeta in *.
  set (all' := flat_map _ (fst _)) in *. set (all := flat_map _ models) in *.
  set (found := snd _) in *.
  assert (Hn : map Obj.name found =
               filter (String.prefix prefix) (map Obj.name all)).
  { now rewrite H1, map_filter_name, H2. }
  split; [exact H1 |]. split; [exact Hn |]. split; [| split; [exact H4 |]].
  - split.
    + intros E o Hin. rewrite E in Hn. cbn in Hn.
      destruct (startsWith prefix o) eqn:Hs; [| reflexivity].
      assert (Hi : In (Obj.name o)
                      (filter (String.prefix prefix) (map Obj.name all))).
      { apply filter_In. split; [now apply in_map | exact Hs]. }
      rewrite <- Hn in Hi. contradiction.
    + intros H. destruct found as [| x rest] eqn:E; [reflexivity |].
      assert (Hi : In (Obj.name x)
                      (filter (String.prefix prefix) (map Obj.name all))).
      { rewrite <- Hn. now left. }
      apply filter_In in Hi. destruct Hi as [Hi Hs].
      apply in_map_iff in Hi. destruct Hi as (o & Ho & Hin).
      specialize (H o Hin). unfold startsWith in H. rewrite Ho, Hs in H.
      discriminate.
  - split; [exact H5 |]. intros ->. cbn [andb] in H3. split; [| exact H3].
    intros o Hin. rewrite H1 in Hin. apply filter_In in Hin.
    destruct Hin as [Hin Hs].
    apply In_nth with (d := o) in Hin. destruct Hin as (i & Hi & E).
    pose proof (nth_map_agree _ _ all all' i o H3 Hi) as Hv.
    pose proof (nth_map_agree _ _ all all' i o H2 Hi) as Hnm.
    rewrite E in Hv, Hnm. rewrite Hv. unfold startsWith in *.
    now rewrite <- Hnm, Hs.
Qed.

(** ** layoutModels *)

Lemma ltb_shift (a b d : R) : Box.ltb (a + d) (b + d) = Box.ltb a b.
Proof.
  unfold Box.ltb. destruct (Rlt_dec (a + d) (b + d)), (Rlt_dec a b);
    try reflexivity; lra.
Qed.

Lemma isEmpty_translate (b : Box3) (d : Vector3) :
  Box.isEmpty (Box.translate b d) = Box.isEmpty b.
Proof.
  destruct b as [| mn mx]; [reflexivity |]. cbn. now rewrite !ltb_shift.
Qed.

Lemma isEmpty_false (mn mx : Vector3) :
  Box.isEmpty (Box mn mx) = false ->
  vx mn <= vx mx /\ vy mn <= vy mx /\ vz mn <= vz mx.
Proof.
  cbn. unfold Box.ltb.
  destruct (Rlt_dec (vx mx) (vx mn)); [discriminate |].
  destruct (Rlt_dec (vy mx) (vy mn)); [discriminate |].
  destruct (Rlt_dec (vz mx) (vz mn)); [discriminate |].
  intros _. lra.
Qed.

Lemma placedLike_setPosition (m : LoadedModel) (p : Vector3) :
  Obj.layoutLocked (object m) = false ->
  vz p = vz (Obj.position (object m)) ->
  placedLike m (setObject (Obj.setPosition p (object m)) m).
Proof.
  intros Hl Hz. unfold placedLike. cbn. repeat split.
  - exact Hz.
  - intros H. rewrite Hl in H. discriminate.
Qed.

(** X17: [layoutModels] changes nothing but object positions: the list
    keeps its length and order, every model keeps its name and its object
    keeps name, visibility, scale, children and z coordinate, and a model
    whose object is layout-locked is left exactly as it was. *)
Theorem layoutModels_frame (models : list LoadedModel) (spacing : R)
    (alignToGround : bool) :
  Forall2 placedLike models (layoutModels models spacing alignToGround).
Proof.
  unfold layoutModels. generalize 0 as cursor.
  induction models as [| m rest IH]; intros cursor; cbn [layoutFrom];
    [constructor |].
  destruct (Obj.layoutLocked (object m)) eqn:Hl.
  - constructor; [| apply IH].
    unfold placedLike. repeat split. now destruct (object m).
  - destruct (Obj.worldBox (object m)) as [| mn mx];
      [| destruct (Box.isEmpty (Box mn mx))];
      (constructor; [now apply placedLike_setPosition | apply IH]).
Qed.

(** X18: with [alignToGround], every model that [layoutModels] places and
    that has geometry ends up resting on the ground plane: the minimum y
    of its bounding box is 0. *)
Theorem layoutModels_grounds (models : list LoadedModel) (spacing : R)
    (m' : LoadedModel) :
  In m' (layoutModels models spacing true) ->
  Obj.layoutLocked (object m') = false ->
  Box.isEmpty (Obj.worldBox (object m')) = false ->
  grounded (object m').
Proof.
  unfold layoutModels. generalize 0 as cursor.
  induction models as [| m rest IH]; intros cursor; cbn [layoutFrom];
    [contradiction |].
  destruct (Obj.layoutLocked (object m)) eqn:Hl.
  - intros [<- | Hin] Hl' He; [congruence | eapply IH; eassumption].
  - unfold Obj.worldBox.
    destruct (Obj.extent (object m)) as [| emn emx] eqn:Ee;
      cbn [Box.translate].
    + intros [<- | Hin] Hl' He; [| eapply IH; eassumption].
      unfold Obj.worldBox in He. cbn in He. rewrite Ee in He. discriminate.
    + match goal with
      | |- context [Box.isEmpty ?b] => destruct (Box.isEmpty b) eqn:Hb
      end.
      * intros [<- | Hin] Hl' He; [| eapply IH; eassumption].
        unfold Obj.worldBox in He. cbn [object setObject Obj.extent
          Obj.setPosition Obj.position] in He.
        rewrite Ee in He. cbn [Box.translate] in He.
        change (Box.isEmpty (Box.translate (Box emn emx)
                  (vec3 cursor (vy (Obj.position (object m)))
                        (vz (Obj.position (object m))))) = false) in He.
        rewrite isEmpty_translate in He.
        change (Box.isEmpty (Box.translate (Box emn emx)
                  (Obj.position (object m))) = true) in Hb.
        rewrite isEmpty_translate in Hb. congruence.
      * intros [<- | Hin] Hl' He; [| eapply IH; eassumption].
        unfold grounded, Obj.worldBox.
        cbn [object setObject Obj.extent Obj.setPosition Obj.position].
        rewrite Ee. cbn. ring.
Qed.

Lemma layoutModels_grounds_witness :
  grounded (object (mkLoadedModel "a"
              (Obj.setPosition (vec3 (0 + (0.5 + 3 - (-0.5 + 3)) / 2)
                                     (7 - (-0.5 + 7)) 0)
                 (object (cubeModel "a" (vec3 3 7 0)))))).
Proof.
  apply (layoutModels_grounds [cubeModel "a" (vec3 3 7 0)] 2.5).
  - cbn. unfold Box.ltb.
    destruct (Rlt_dec (0.5 + 3) (-0.5 + 3)); [lra |].
    destruct (Rlt_dec (0.5 + 7) (-0.5 + 7)); [lra |].
    destruct (Rlt_dec (0.5 + 0) (-0.5 + 0)); [lra |].
    cbn. left. reflexivity.
  - reflexivity.
  - cbn. unfold Box.ltb.
    repeat match goal with
           | |- context [Rlt_dec ?a ?b] => destruct (Rlt_dec a b); [lra |]
           end.
    reflexivity.
Defined.

Lemma layoutFrom_idempotent (spacing : R) (alignToGround : bool)
    (models : list LoadedModel) :
  forall cursor,
    layoutFrom cursor spacing alignToGround
      (layoutFrom cursor spacing alignToGround models) =
    layoutFrom cursor spacing alignToGround models.
Proof.
  induction models as [| m rest IH]; intros cursor; [reflexivity |].
  cbn [layoutFrom].
  destruct (Obj.layoutLocked (object m)) eqn:Hl.
  - cbn [layoutFrom]. rewrite Hl. now rewrite IH.
  - unfold Obj.worldBox.
    destruct m as [nm [n v p s l e cs]]. cbn in Hl. subst l.
    cbn [object Obj.extent Obj.position].
    destruct e as [| emn emx]; cbn [Box.translate].
    + cbn [layoutFrom object setObject Obj.setPosition Obj.layoutLocked
           Obj.worldBox Obj.extent Obj.position Box.translate lname
           Obj.name Obj.visible Obj.scale Obj.children vx vy vz].
      now rewrite IH.
    + destruct (Box.isEmpty
                  (Box (vec3 (vx emn + vx p) (vy emn + vy p) (vz emn + vz p))
                       (vec3 (vx emx + vx p) (vy emx + vy p)
                             (vz emx + vz p)))) eqn:Hb.
      * cbn [layoutFrom object setObject Obj.setPosition Obj.layoutLocked
             Obj.worldBox Obj.extent Obj.position Box.translate lname
             Obj.name Obj.visible Obj.scale Obj.children vx vy vz].
        change (Box.isEmpty (Box.translate (Box emn emx) p) = true) in Hb.
        rewrite isEmpty_translate in Hb.
        match goal with
        | |- context [Box.isEmpty ?b] =>
            change b with (Box.translate (Box emn emx)
                             (vec3 cursor (vy p) (vz p)));
            rewrite (isEmpty_translate (Box emn emx))
        end.
        rewrite Hb. now rewrite IH.
      * cbn [Box.getSize]. rewrite Hb.
        cbn [layoutFrom object setObject Obj.setPosition Obj.layoutLocked
             Obj.worldBox Obj.extent Obj.position Box.translate lname
             Obj.name Obj.visible Obj.scale Obj.children vx vy vz Vec.sub].
        change (Box.isEmpty (Box.translate (Box emn emx) p) = false) in Hb.
        rewrite isEmpty_translate in Hb.
        match goal with
        | |- context [Box.isEmpty (Box ?a ?b)] =>
            assert (Hb' : Box.isEmpty (Box a b) = false)
        end.
        { match goal with
          | |- Box.isEmpty (Box ?a ?b) = false =>
              cbn; rewrite !ltb_shift; exact Hb
          end. }
        rewrite Hb'. cbn [Box.getSize]. rewrite Hb'.
        cbn [Vec.sub vx vy vz].
        match goal with
        | |- ?a :: layoutFrom ?c1 _ _ _ = ?b :: layoutFrom ?c2 _ _ _ =>
            replace c1 with c2 by ring; rewrite IH; f_equal
        end.
        unfold setObject, Obj.setPosition.
        cbn [lname object Obj.name Obj.visible Obj.scale Obj.layoutLocked
             Obj.extent Obj.children].
        do 2 f_equal.
        apply vec3_eq; cbn [vx vy vz]; [field | | reflexivity].
        destruct alignToGround; ring.
Qed.

(** X19: [layoutModels] is idempotent: laying out an already laid-out list
    again, with the same options, moves nothing. *)
Theorem layoutModels_idempotent (models : list LoadedModel) (spacing : R)
    (alignToGround : bool) :
  layoutModels (layoutModels models spacing alignToGround) spacing
               alignToGround =
  layoutModels models spacing alignToGround.
Proof. apply layoutFrom_idempotent. Qed.

Lemma layoutFrom_packed (spacing : R) (alignToGround : bool)
    (models : list LoadedModel) :
  (forall m, In m models ->
             Obj.layoutLocked (object m) = false /\ centredX (object m)) ->
  forall cursor,
    packedFrom cursor spacing (layoutFrom cursor spacing alignToGround models).
Proof.
  induction models as [| m rest IH]; intros H cursor; [exact I |].
  destruct (H m (or_introl eq_refl)) as [Hl Hc].
  assert (Hrest : forall x, In x rest ->
                    Obj.layoutLocked (object x) = false /\
                    centredX (object x))
    by (intros x Hx; apply H; now right).
  cbn [layoutFrom]. rewrite Hl.
  destruct m as [nm [n v p s l e cs]]. unfold centredX in Hc.
  cbn [object Obj.extent] in *.
  destruct e as [| emn emx]; [contradiction |]. destruct Hc as [Hb Hx].
  unfold Obj.worldBox. cbn [Obj.extent Obj.position Box.translate].
  assert (Hb' : Box.isEmpty
                  (Box (vec3 (vx emn + vx p) (vy emn + vy p) (vz emn + vz p))
                       (vec3 (vx emx + vx p) (vy emx + vy p)
                             (vz emx + vz p))) = false).
  { change (Box.isEmpty (Box.translate (Box emn emx) p) = false).
    now rewrite isEmpty_translate. }
  rewrite Hb'. cbn [Box.getSize]. rewrite Hb'.
  cbn [packedFrom object setObject Obj.setPosition Obj.worldBox Obj.extent
       Obj.position Box.translate Vec.sub vx vy vz Obj.name Obj.visible
       Obj.scale Obj.layoutLocked Obj.children].
  split; [rewrite Hx; field |].
  match goal with
  | |- packedFrom ?c1 _ (layoutFrom ?c2 _ _ _) =>
      replace c1 with c2 by (rewrite Hx; field)
  end.
  now apply IH.
Qed.

(** X20: when every model is unlocked, has geometry and is centred in x on
    its origin, [layoutModels] stands the bounding boxes side by side along
    x without overlap: the first box starts at x = 0 and each following box
    starts exactly [spacing] after the end of the one before. *)
Theorem layoutModels_packs (models : list LoadedModel) (spacing : R)
    (alignToGround : bool) :
  (forall m, In m models ->
             Obj.layoutLocked (object m) = false /\ centredX (object m)) ->
  packedFrom 0 spacing (layoutModels models spacing alignToGround).
Proof. intros H. now apply layoutFrom_packed. Qed.

Lemma cubeModel_centred (name : string) (p : Vector3) :
  Obj.layoutLocked (object (cubeModel name p)) = false /\
  centredX (object (cubeModel name p)).
Proof.
  split; [reflexivity |]. unfold centredX. cbn. split; [| lra].
  unfold Box.ltb.
  destruct (Rlt_dec 0.5 (-0.5)); [lra | reflexivity].
Qed.

Lemma layoutModels_packs_witness :
  packedFrom 0 3
    (layoutModels [cubeModel "a" (vec3 3 7 0); cubeModel "b" (vec3 3 7 0)]
                  3 true).
Proof.
  apply (layoutModels_packs
           [cubeModel "a" (vec3 3 7 0); cubeModel "b" (vec3 3 7 0)] 3 true).
  intros m [<- | [<- | []]]; apply cubeModel_centred.
Defined.

(** ** normalizeModel *)

Lemma max3_scale (k a b c : R) :
  0 <= k -> max3 (k * a) (k * b) (k * c) = k * max3 a b c.
Proof. intros H. unfold max3. now rewrite !RmaxRmult. Qed.

Lemma scale_ordered (k a b : R) :
  0 < k -> a <= b -> Rmin (k * a) (k * b) = k * a /\
                     Rmax (k * a) (k * b) = k * b.
Proof.
  intros Hk Hab. assert (k * a <= k * b) by nra.
  split; [now apply Rmin_left | now apply Rmax_right].
Qed.

(** The scale factor [normalizeModel] applies for target size [t]. *)
Lemma normalizeModel_scaled (o : Obj.t) (center : bool) (t : R) :
  Box.isEmpty (Obj.worldBox o) = false ->
  0 < t ->
  let sz := Box.getSize (Obj.worldBox o) in
  0 < max3 (vx sz) (vy sz) (vz sz) ->
  normalizeModel o center (Some t) =
  Obj.multiplyScale (t / max3 (vx sz) (vy sz) (vz sz))
    (if center
     then Obj.setPosition
            (Vec.sub (Obj.position o) (Box.getCenter (Obj.worldBox o))) o
     else o).
Proof.
  intros He Ht sz Hm. unfold normalizeModel. rewrite He.
  destruct (Rlt_dec 0 t); [| contradiction].
  fold sz. destruct (Rlt_dec 0 (max3 (vx sz) (vy sz) (vz sz)));
    [reflexivity | contradiction].
Qed.

Lemma worldBox_nonempty (o : Obj.t) :
  Box.isEmpty (Obj.worldBox o) = false ->
  exists emn emx,
    Obj.extent o = Box emn emx /\ Box.isEmpty (Box emn emx) = false.
Proof.
  unfold Obj.worldBox. destruct (Obj.extent o) as [| emn emx] eqn:E;
    [discriminate |].
  intros H. exists emn, emx. split; [reflexivity |].
  now rewrite <- (isEmpty_translate (Box emn emx) (Obj.position o)).
Qed.

(** X21: for an object with geometry, a positive target size and a box of
    positive largest dimension, [normalizeModel] leaves the object with a
    bounding box whose largest dimension is exactly the target size,
    whether or not it also centres the object. *)
Theorem normalizeModel_fits (o : Obj.t) (center : bool) (t : R) :
  Box.isEmpty (Obj.worldBox o) = false ->
  0 < t ->
  let sz := Box.getSize (Obj.worldBox o) in
  0 < max3 (vx sz) (vy sz) (vz sz) ->
  let o' := normalizeModel o center (Some t) in
  let sz' := Box.getSize (Obj.worldBox o') in
  Box.isEmpty (Obj.worldBox o') = false /\
  max3 (vx sz') (vy sz') (vz sz') = t.
Proof.
  intros He Ht sz Hm. cbn zeta.
  rewrite (normalizeModel_scaled o center t He Ht Hm). fold sz.
  set (k := t / max3 (vx sz) (vy sz) (vz sz)).
  assert (Hk : 0 < k) by (unfold k; now apply Rdiv_lt_0_compat).
  destruct (worldBox_nonempty o He) as (emn & emx & Ee & Hb).
  destruct (isEmpty_false emn emx Hb) as (Ox & Oy & Oz).
  destruct (scale_ordered k _ _ Hk Ox) as [Nx Mx].
  destruct (scale_ordered k _ _ Hk Oy) as [Ny My].
  destruct (scale_ordered k _ _ Hk Oz) as [Nz Mz].
  set (o1 := if center then _ else o).
  assert (E1 : Obj.extent o1 = Box emn emx).
  { subst o1. destruct center; [| exact Ee]. cbn. exact Ee. }
  assert (Hsz : sz = Vec.sub (vec3 (vx emx + vx (Obj.position o))
                                   (vy emx + vy (Obj.position o))
                                   (vz emx + vz (Obj.position o)))
                             (vec3 (vx emn + vx (Obj.position o))
                                   (vy emn + vy (Obj.position o))
                                   (vz emn + vz (Obj.position o)))).
  { subst sz. unfold Obj.worldBox in *. rewrite Ee in *.
    cbn [Box.translate] in *. cbn [Box.getSize]. now rewrite He. }
  assert (Hw : Obj.worldBox (Obj.multiplyScale k o1) =
               Box.translate (Box (vec3 (k * vx emn) (k * vy emn) (k * vz emn))
                                  (vec3 (k * vx emx) (k * vy emx)
                                        (k * vz emx)))
                             (Obj.position o1)).
  { unfold Obj.worldBox, Obj.multiplyScale.
    cbn [Obj.extent Obj.position]. rewrite E1. cbn [Box.scale].
    now rewrite Nx, Ny, Nz, Mx, My, Mz. }
  assert (Hne : Box.isEmpty (Obj.worldBox (Obj.multiplyScale k o1)) = false).
  { rewrite Hw, isEmpty_translate. cbn. unfold Box.ltb.
    destruct (Rlt_dec (k * vx emx) (k * vx emn)); [nra |].
    destruct (Rlt_dec (k * vy emx) (k * vy emn)); [nra |].
    destruct (Rlt_dec (k * vz emx) (k * vz emn)); [nra |].
    reflexivity. }
  split; [exact Hne |].
  assert (Hg : Box.getSize (Obj.worldBox (Obj.multiplyScale k o1)) =
               Vec.multiplyScalar sz k).
  { revert Hne. rewrite Hw. cbn [Box.translate Box.getSize].
    intros ->. rewrite Hsz. apply vec3_eq; cbn; ring. }
  rewrite Hg. cbn [Vec.multiplyScalar vx vy vz].
  rewrite (Rmult_comm (vx sz)), (Rmult_comm (vy sz)), (Rmult_comm (vz sz)).
  rewrite max3_scale by lra. unfold k. field. lra.
Qed.

Lemma cube_box (p : Vector3) :
  Box.isEmpty (Obj.worldBox (object (cubeModel "a" p))) = false /\
  Box.getSize (Obj.worldBox (object (cubeModel "a" p))) = vec3 1 1 1.
Proof.
  assert (H : Box.isEmpty (Obj.worldBox (object (cubeModel "a" p))) = false).
  { unfold Obj.worldBox. rewrite isEmpty_translate. cbn. unfold Box.ltb.
    destruct (Rlt_dec 0.5 (-0.5)); [lra | reflexivity]. }
  split; [exact H |]. revert H. unfold Obj.worldBox. cbn.
  intros ->. apply vec3_eq; cbn; lra.
Qed.

Lemma max3_ones : max3 1 1 1 = 1.
Proof. unfold max3, Rmax. repeat destruct (Rle_dec _ _); lra. Qed.

Lemma normalizeModel_fits_witness :
  let o' := normalizeModel (object (cubeModel "a" (vec3 3 7 0))) true
              (Some 2) in
  let sz' := Box.getSize (Obj.worldBox o') in
  Box.isEmpty (Obj.worldBox o') = false /\
  max3 (vx sz') (vy sz') (vz sz') = 2.
Proof.
  apply (normalizeModel_fits (object (cubeModel "a" (vec3 3 7 0))) true 2).
  - apply cube_box.
  - lra.
  - rewrite (proj2 (cube_box (vec3 3 7 0))). cbn [vx vy vz].
    rewrite max3_ones. lra.
Defined.

(** X22: an object without geometry is left untouched by [normalizeModel];
    for an object with geometry, centring without a target size leaves the
    centre of its bounding box at the origin. *)
Theorem normalizeModel_centres (o : Obj.t) (center : bool)
    (targetSize : option R) :
  (Box.isEmpty (Obj.worldBox o) = true ->
   normalizeModel o center targetSize = o) /\
  (Box.isEmpty (Obj.worldBox o) = false ->
   Box.getCenter (Obj.worldBox (normalizeModel o true None)) = Vec.zero).
Proof.
  split.
  - intros He. unfold normalizeModel. now rewrite He.
  - intros He. unfold normalizeModel. rewrite He.
    destruct (worldBox_nonempty o He) as (emn & emx & Ee & Hb).
    unfold Obj.worldBox in *. cbn [Obj.extent Obj.setPosition Obj.position].
    rewrite Ee in *. cbn [Box.translate] in *.
    cbn [Box.getCenter]. rewrite He.
    match goal with
    | |- context [Box.isEmpty ?b] =>
        assert (Hb' : Box.isEmpty b = false)
    end.
    { match goal with
      | |- Box.isEmpty (Box ?a ?b) = false =>
          cbn; rewrite !ltb_shift; exact Hb
      end. }
    rewrite Hb'.
    apply vec3_eq; cbn [vx vy vz Vec.sub Vec.multiplyScalar Vec.zero]; lra.
Qed.

Lemma normalizeModel_centres_witness :
  Box.getCenter
    (Obj.worldBox (normalizeModel (object (cubeModel "a" (vec3 3 7 0)))
                     true None)) = Vec.zero.
Proof.
  apply (proj2 (normalizeModel_centres (object (cubeModel "a" (vec3 3 7 0)))
                  true None)).
  apply cube_box.
Defined.

(** X23: when [normalizeModel] both centres and rescales, the scale is
    applied about the object's origin after the centring move, so the
    centre of the bounding box ends at (k - 1) times the offset of the
    geometry's centre from the object's origin, k being the scale factor:
    the result is centred only if the geometry was centred on the origin
    or no rescaling was needed. *)
Theorem normalizeModel_centre_after_scaling (o : Obj.t) (t : R) :
  Box.isEmpty (Obj.worldBox o) = false ->
  0 < t ->
  let sz := Box.getSize (Obj.worldBox o) in
  0 < max3 (vx sz) (vy sz) (vz sz) ->
  let k := t / max3 (vx sz) (vy sz) (vz sz) in
  Box.getCenter (Obj.worldBox (normalizeModel o true (Some t))) =
  Vec.multiplyScalar (Box.getCenter (Obj.extent o)) (k - 1).
Proof.
  intros He Ht sz Hm k.
  rewrite (normalizeModel_scaled o true t He Ht Hm). fold sz. fold k.
  assert (Hk : 0 < k) by (unfold k; now apply Rdiv_lt_0_compat).
  destruct (worldBox_nonempty o He) as (emn & emx & Ee & Hb).
  destruct (isEmpty_false emn emx Hb) as (Ox & Oy & Oz).
  destruct (scale_ordered k _ _ Hk Ox) as [Nx Mx].
  destruct (scale_ordered k _ _ Hk Oy) as [Ny My].
  destruct (scale_ordered k _ _ Hk Oz) as [Nz Mz].
  unfold Obj.worldBox in *. rewrite Ee in *.
  cbn [Obj.multiplyScale Obj.setPosition Obj.extent Obj.position
       Obj.name Obj.visible Obj.scale Obj.layoutLocked Obj.children].
  rewrite Ee. cbn [Box.scale Box.translate] in *.
  rewrite Nx, Ny, Nz, Mx, My, Mz.
  cbn [Box.getCenter]. rewrite He, Hb.
  match goal with
  | |- context [Box.isEmpty ?b] => assert (Hb' : Box.isEmpty b = false)
  end.
  { cbn. unfold Box.ltb.
    repeat match goal with
           | |- context [Rlt_dec ?a ?b] => destruct (Rlt_dec a b); [nra |]
           end.
    reflexivity. }
  rewrite Hb'.
  clearbody k. clear Hm sz.
  apply vec3_eq; cbn [vx vy vz Vec.sub Vec.multiplyScalar]; lra.
Qed.

Lemma normalizeModel_centre_after_scaling_witness :
  let o := object (cubeModel "a" (vec3 3 7 0)) in
  let sz := Box.getSize (Obj.worldBox o) in
  Box.getCenter (Obj.worldBox (normalizeModel o true (Some 2))) =
  Vec.multiplyScalar (Box.getCenter (Obj.extent o))
    (2 / max3 (vx sz) (vy sz) (vz sz) - 1).
Proof.
  apply (normalizeModel_centre_after_scaling
           (object (cubeModel "a" (vec3 3 7 0))) 2).
  - apply cube_box.
  - lra.
  - rewrite (proj2 (cube_box (vec3 3 7 0))). cbn [vx vy vz].
    rewrite max3_ones. lra.
Defined.

(** * The sensor fusion on an upright phone *)

Lemma inv_sqrt2 : 1 / sqrt 2 = sqrt 0.5.
Proof.
  replace 0.5 with (/ 2) by lra. rewrite sqrt_inv. unfold Rdiv. ring.
Qed.

Lemma half_quarter_turn : sin (PI / 2 / 2) = sqrt 0.5 /\
                          cos (PI / 2 / 2) = sqrt 0.5.
Proof.
  replace (PI / 2 / 2) with (PI / 4) by lra.
  now rewrite sin_PI4, cos_PI4, inv_sqrt2.
Qed.

Lemma setObjectQuaternion_upright (a : R) :
  setObjectQuaternion a (PI / 2) 0 0 = Quat.setFromEuler (mkEuler 0 a 0).
Proof.
  unfold setObjectQuaternion. rewrite Ropp_0, setFromAxisAngle_zero,
    multiply_identity_r.
  unfold Quat.setFromEuler, Quat.multiply, q1. cbn [ex ey ez qx qy qz qw].
  destruct half_quarter_turn as [Hs Hc]. rewrite Hs, Hc.
  replace (0 / 2) with 0 by lra. rewrite sin_0, cos_0.
  pose proof sqrt_half_sq as Hh.
  set (h := sqrt 0.5) in *. set (s2 := sin (a / 2)). set (c2 := cos (a / 2)).
  f_equal.
  - ring.
  - transitivity (2 * (h * h) * s2); [ring | rewrite Hh; lra].
  - ring.
  - transitivity (2 * (h * h) * c2); [ring | rewrite Hh; lra].
Qed.

Lemma yaw_quaternions_add (a b : R) :
  Quat.multiply (Quat.setFromEuler (mkEuler 0 a 0))
                (Quat.setFromEuler (mkEuler 0 b 0)) =
  Quat.setFromEuler (mkEuler 0 (a + b) 0).
Proof.
  unfold Quat.setFromEuler, Quat.multiply. cbn [ex ey ez qx qy qz qw].
  replace (0 / 2) with 0 by lra. rewrite sin_0, cos_0.
  replace ((a + b) / 2) with (a / 2 + b / 2) by lra.
  rewrite sin_plus, cos_plus. f_equal; ring.
Qed.

Lemma update_quaternion (delta : R) (s : Controls) :
  quaternion (camera (update delta s)) =
  quaternion (camera (fuseOrientation s)).
Proof. unfold update, moveAndCollide. now destruct (rejects _ _ _). Qed.

(** X24: in gyro mode with the phone held upright in portrait (beta = 90
    degrees, gamma = 0, screen angle 0) and no pitch offset, a frame leaves
    the camera level, turned about the vertical axis by the compass angle
    alpha plus the touch look-offset yaw: its quaternion is the one of the
    Euler rotation (0, alpha + lookOffsetYaw, 0). *)
Theorem upright_phone_heading (delta a : R) (s : Controls) :
  gyroEnabled (state s) = true ->
  deviceOrientation s = Some (uprightReading a) ->
  screenOrientation s = 0 ->
  lookOffsetPitch s = 0 ->
  quaternion (camera (update delta s)) =
  Quat.setFromEuler (mkEuler 0 (deg2rad a + lookOffsetYaw s) 0).
Proof.
  intros Hg Hd Ho Hp. rewrite update_quaternion. unfold fuseOrientation.
  rewrite Hg, Hd, Ho, Hp.
  cbn [uprightReading alpha beta gamma nullish set_camera camera
       Cam.setQuaternion quaternion].
  rewrite deg2rad_0.
  replace (deg2rad 90) with (PI / 2) by (unfold deg2rad; lra).
  rewrite setObjectQuaternion_upright. apply yaw_quaternions_add.
Qed.

Lemma upright_phone_heading_witness :
  let s := run [SetGyroEnabledCall true NoRequestPermission (Some 0);
                DeviceOrientationEv (uprightReading 45)]
               (freshControls phone) in
  quaternion (camera (update 1 s)) =
  Quat.setFromEuler (mkEuler 0 (deg2rad 45 + lookOffsetYaw s) 0).
Proof.
  apply (upright_phone_heading 1 45
           (run [SetGyroEnabledCall true NoRequestPermission (Some 0);
                 DeviceOrientationEv (uprightReading 45)]
                (freshControls phone))); reflexivity.
Defined.

Lemma findFirstByName_first_witness :
  Obj.name (object (cubeModel "SPAWN" Vec.zero)) = "SPAWN"%string /\
  In (object (cubeModel "SPAWN" Vec.zero))
     (flat_map (fun m => Obj.traversal (object m))
               [cubeModel "Room" Vec.zero; cubeModel "SPAWN" Vec.zero]).
Proof.
  apply (proj1 (proj2 (findFirstByName_first
                         [cubeModel "Room" Vec.zero;
                          cubeModel "SPAWN" Vec.zero] "SPAWN"))).
  reflexivity.
Defined.

Lemma collectByPrefix_spec_witness :
  fst (collectByPrefix [cubeModel "COLLIDER_wall" Vec.zero] "COLLIDER_" false)
  = [cubeModel "COLLIDER_wall" Vec.zero].
Proof.
  apply (proj1 (proj2 (proj2 (proj2 (proj2
           (collectByPrefix_spec [cubeModel "COLLIDER_wall" Vec.zero]
              "COLLIDER_" false)))))).
  reflexivity.
Defined.

(** * A frame of movement *)

(** ** The net displacement of a frame *)



Lemma update_accepted (delta : R) (s : Controls) :
  frameRejected delta s = false ->
  position (camera (update delta s)) = integrate delta (fuseOrientation s).
Proof.
  intros Hr. unfold frameRejected in Hr. unfold update, moveAndCollide.
  rewrite Hr. reflexivity.
Qed.

Lemma update_rejected (delta : R) (s : Controls) :
  frameRejected delta s = true ->
  position (camera (update delta s)) = position (camera s).
Proof.
  intros Hr. unfold frameRejected in Hr. unfold update, moveAndCollide.
  rewrite Hr. cbn [camera set_camera position Cam.setPosition].
  apply fuseOrientation_footing.
Qed.

Lemma update_state (delta : R) (s : Controls) :
  state (update delta s) = state s.
Proof.
  unfold update, moveAndCollide.
  destruct (rejects _ _ _); cbn [state set_camera];
    apply fuseOrientation_inputs.
Qed.





(** ** The forward vector of walk mode *)





(** ** Walk mode keeps the camera at walk height, frame by frame *)

(** C2: a frame of [update] in walk mode whose step the collision guard
    accepts leaves the camera at [walkHeight], whatever its height was
    before: the snap after the integration writes it.  A frame whose step
    the guard rejects leaves the camera where it was.  Hence a frame in
    walk mode that starts at [walkHeight] ends at [walkHeight] either way;
    and since the controller is created in fly mode and [setFlyMode(false)]
    snaps the height, every [update] made in walk mode, after any sequence
    of events and calls from construction, returns with the camera's
    vertical position equal to [walkHeight]. *)
Theorem walk_update_pins_height :
  (forall (delta : R) (s : Controls),
     flyMode (state s) = false -> frameRejected delta s = false ->
     vy (position (camera (update delta s))) = walkHeight (state s)) /\
  (forall (delta : R) (s : Controls),
     frameRejected delta s = true ->
     position (camera (update delta s)) = position (camera s)) /\
  (forall (delta : R) (s : Controls),
     walkPinned s -> flyMode (state s) = false ->
     vy (position (camera (update delta s))) = walkHeight (state s)) /\
  (forall (position0 : Vector3) (rotation0 : Euler) (browser : Browser)
          (events : list Event) (delta : R),
     let s := run events (createWalkFlyControls position0 rotation0 browser)
     in
     flyMode (state s) = false ->
     state (update delta s) = state s /\
     vy (position (camera (update delta s))) = walkHeight (state s)).
Proof.
  assert (Accepted : forall delta s,
            flyMode (state s) = false -> frameRejected delta s = false ->
            vy (position (camera (update delta s))) = walkHeight (state s)).
  { intros delta s Hwalk Hr. rewrite (update_accepted _ _ Hr).
    destruct (fuseOrientation_footing s) as (Hf & Hw & _).
    rewrite <- Hw. apply integrate_walk. now rewrite Hf. }
  assert (Pinned : forall delta s,
            walkPinned s -> flyMode (state s) = false ->
            vy (position (camera (update delta s))) = walkHeight (state s)).
  { intros delta s Hp Hwalk. destruct (frameRejected delta s) eqn:Hr.
    - rewrite (update_rejected _ _ Hr). now apply Hp.
    - now apply Accepted. }
  repeat split.
  - exact Accepted.
  - intros delta s. apply update_rejected.
  - exact Pinned.
  - apply update_state.
  - apply Pinned; [| assumption].
    apply run_pinned, createWalkFlyControls_pinned.
Qed.

Lemma walk_update_pins_height_witness :
  let s := run [SetFlyModeCall false; KeyDownEv "KeyW"]
               (freshControls desktop) in
  vy (position (camera (update 1 s))) = walkHeight (state s).
Proof.
  apply (proj1 walk_update_pins_height 1
           (run [SetFlyModeCall false; KeyDownEv "KeyW"]
                (freshControls desktop))); reflexivity.
Defined.

(** ** The length of a frame's step *)






